(** * run_wfc.cpp: the sample/retry driver of the WFC engine

    A shallow embedding of
    [src/simenv/assets/procgen/wfc/core/cpp/src/run_wfc.cpp]:
    [increment_seed], [array2d_from_vector], [read_overlapping_instance],
    [to_symmetry], [pytile_to_tile], [read_simpletiled_instance] and
    [run_wfc_cpp].

    - [unsigned] and [int] values are [Z], conversions and wrap-around are
      written out;
    - [std::unordered_map<string, unsigned>] is a [gmap string Z];
    - [throw], and the [std::terminate] of a [noexcept] function, are the
      constructors of [Outcome];
    - what the driver does to the outside (lines on [std::cout], WFC
      instances constructed and run) is the trace of [Event]s a call
      returns next to its outcome; the clock it reads is an argument. *)

From Stdlib Require Import ZArith Lia.
From stdpp Require Import gmap strings list pretty.

Local Open Scope Z_scope.

(** ** Machine integers *)

Module Cpp.

(** [std::numeric_limits<unsigned>::max()] for a 32-bit [unsigned]. *)
Definition UINT_MAX : Z := 2 ^ 32 - 1.

(** Conversion of an integer value to [unsigned]. *)
Definition to_unsigned (z : Z) : Z := z mod 2 ^ 32.

(** Conversion of an integer value to [int] (two's complement). *)
Definition to_int (z : Z) : Z := (z + 2 ^ 31) mod 2 ^ 32 - 2 ^ 31.

Definition is_unsigned (z : Z) : Prop := 0 <= z <= UINT_MAX.

End Cpp.

Import Cpp.

(** ** [increment_seed] (lines 38-44) *)

Definition increment_seed (seed : Z) : Z :=
  if seed <? UINT_MAX - 1 then to_unsigned (seed + 1) else 0.

(** ** Data *)

(** [Array2D<T>] (utils/array2D.hpp): the two dimensions and the row-major
    data vector, the three members the driver reads ([height], [width],
    [data]). *)
Record Array2D (T : Type) : Type := mkArray2D {
  arr_height : Z;
  arr_width : Z;
  arr_data : list T;
}.
Arguments mkArray2D {T} _ _ _.
Arguments arr_height {T} _.
Arguments arr_width {T} _.
Arguments arr_data {T} _.

(** [Array2D<T>(0, 0)]: no rows, no columns, an empty data vector. *)
Definition Array2D_0_0 {T : Type} : Array2D T := mkArray2D 0 0 [].

(** [array2d_from_vector] (lines 49-53): [Array2D<Color>(height, width)]
    whose [data] is then overwritten by [input]. *)
Definition array2d_from_vector {T : Type} (input : list T) (width height : Z)
  : Array2D T :=
  mkArray2D height width input.

(** The test [result.width > 0 || result.height > 0] (lines 92, 107, 206,
    220). *)
Definition has_size {T : Type} (a : Array2D T) : bool :=
  (0 <? arr_width a) || (0 <? arr_height a).

(** [OverlappingWFCOptions], in the order of the initialiser of line 80. *)
Record OverlappingWFCOptions : Type := mkOverlappingWFCOptions {
  opt_periodic_input : bool;
  opt_periodic_output : bool;
  opt_out_height : Z;
  opt_out_width : Z;
  opt_symmetry : Z;
  opt_ground : bool;
  opt_pattern_size : Z;
}.

(** [TilingWFCOptions]: the initialiser [{periodic_output}] of line 202. *)
Record TilingWFCOptions : Type := mkTilingWFCOptions {
  topt_periodic_output : bool;
}.

(** [enum class Symmetry] (tiling_wfc.hpp), the six values [to_symmetry]
    returns. *)
Module Symmetry.
Inductive t : Type := X | T | I | L | backslash | P.
End Symmetry.

(** [Tile<T>] as the driver constructs it at line 149. *)
Record Tile (T W : Type) : Type := mkTile {
  tile_data : Array2D T;
  tile_symmetry : Symmetry.t;
  tile_weight : W;
}.
Arguments mkTile {T W} _ _ _.
Arguments tile_data {T W} _.
Arguments tile_symmetry {T W} _.
Arguments tile_weight {T W} _.

(** [PyTile] as the driver reads it (lines 148-149, 173). *)
Record PyTile (T W : Type) : Type := mkPyTile {
  py_size : Z;
  py_tile : list T;
  py_name : string;
  py_symmetry : string;
  py_weight : W;
}.
Arguments mkPyTile {T W} _ _ _ _ _.
Arguments py_size {T W} _.
Arguments py_tile {T W} _.
Arguments py_name {T W} _.
Arguments py_symmetry {T W} _.
Arguments py_weight {T W} _.

(** [Neighbor] as the driver reads it (lines 180-183): members [left],
    [left_or], [right], [right_or]; the two orientations are read through
    [const int &]. *)
Record Neighbor : Type := mkNeighbor {
  nb_left : string;
  nb_left_or : Z;
  nb_right : string;
  nb_right_or : Z;
}.

(** ** The engines

    Modelled from the spec: [OverlappingWFC<Color>] (overlapping_wfc.hpp)
    and [TilingWFC<Color>] (tiling_wfc.hpp) are not part of the file.  An
    instance owns its generator, seeded at construction, and shares
    nothing with other instances, so constructing one and calling [run()]
    is a function of the constructor's arguments; a failed run is an
    [Array2D] without size.  [Color] (color.hpp) and the [double] of a
    weight are opaque to the driver. *)
Class WfcEngine : Type := {
  Color : Type;
  double : Type;
  OverlappingWFC_run :
    Array2D Color -> OverlappingWFCOptions -> Z -> Array2D Color;
  TilingWFC_run :
    list (Tile Color double) -> list (Z * Z * Z * Z) -> Z -> Z ->
    TilingWFCOptions -> Z -> Array2D Color;
}.

(** ** Outcomes and traces *)

(** What is thrown: a string literal (lines 73, 262) or a [std::string]
    (line 142). *)
Inductive Exn : Type :=
  | CString (msg : string)
  | StdString (msg : string).

(** How a call ends: it returns, an exception leaves it, or
    [std::terminate] ends the process. *)
Inductive Outcome (A : Type) : Type :=
  | Returned (a : A)
  | Thrown (e : Exn)
  | Terminated.
Arguments Returned {A} _.
Arguments Thrown {A} _.
Arguments Terminated {A}.

(** What a call does to the outside, in order: a line written to
    [std::cout], or a WFC instance constructed with [seed] and run, during
    try number [test] of sample number [sample]. *)
Record Try (C : Type) : Type := mkTry {
  try_sample : Z;
  try_test : Z;
  try_seed : Z;
  try_result : Array2D C;
}.
Arguments mkTry {C} _ _ _ _.
Arguments try_sample {C} _.
Arguments try_test {C} _.
Arguments try_seed {C} _.
Arguments try_result {C} _.

Inductive Event (C : Type) : Type :=
  | Cout (line : string)
  | EngineRun (t : Try C).
Arguments Cout {C} _.
Arguments EngineRun {C} _.

(** The lines written to [std::cout]. *)
Definition stdout {C : Type} (tr : list (Event C)) : list string :=
  omap (fun e => match e with Cout s => Some s | EngineRun _ => None end) tr.

(** The engine runs, in order. *)
Definition engine_runs {C : Type} (tr : list (Event C)) : list (Try C) :=
  omap (fun e => match e with EngineRun t => Some t | Cout _ => None end) tr.

(** Among the engine runs [rs], those made for sample [i]. *)
Definition tries_of_sample {C : Type} (i : Z) (rs : list (Try C))
  : list (Try C) :=
  filter (fun t => try_sample t = i) rs.

Definition try_succeeded {C : Type} (t : Try C) : bool :=
  has_size (try_result t).

(** A computation: its outcome and the trace it leaves. *)
Definition Prog (C A : Type) : Type := (Outcome A * list (Event C))%type.

Definition ret {C A : Type} (a : A) : Prog C A := (Returned a, []).

Definition throw {C A : Type} (e : Exn) : Prog C A := (Thrown e, []).

Definition bind {C A B : Type} (m : Prog C A) (k : A -> Prog C B)
  : Prog C B :=
  match m with
  | (Returned a, tr) => let '(o, tr') := k a in (o, tr ++ tr')
  | (Thrown e, tr) => (Thrown e, tr)
  | (Terminated, tr) => (Terminated, tr)
  end.

Notation "'let*' x := m 'in' k" := (bind m (fun x => k))
  (at level 10, x name, m at level 100, k at level 200, only parsing).
Notation "'do' m ; k" := (bind m (fun _ => k))
  (at level 10, m at level 100, k at level 200, only parsing).

(** [cout << line << endl]. *)
Definition cout {C : Type} (line : string) : Prog C unit :=
  (Returned tt, [Cout line]).

Definition when {C : Type} (b : bool) (m : Prog C unit) : Prog C unit :=
  if b then m else ret tt.

(** A pure computation that may throw, run inside a [Prog]. *)
Definition lift {C A : Type} (o : Outcome A) : Prog C A := (o, []).

(** A trace-producing computation that cannot throw. *)
Definition traced {C A : Type} (m : A * list (Event C)) : Prog C A :=
  (Returned (fst m), snd m).

(** The body of a function declared [noexcept]: an exception that would
    leave it calls [std::terminate]. *)
Definition noexcept {C A : Type} (m : Prog C A) : Prog C A :=
  match m with
  | (Thrown _, tr) => (Terminated, tr)
  | _ => m
  end.

(** ** The driver *)

Section Driver.
Context {E : WfcEngine}.

Abbreviation Trace := (list (Event Color)).

(** The variables that live across the iterations of the two loops of a
    front-end: [seed] (a parameter, assigned at lines 86 and 199),
    [result] and [results_vec] (declared before the sample loop). *)
Record Locals : Type := mkLocals {
  l_seed : Z;
  l_result : Array2D Color;
  l_results_vec : list Color;
}.

(** *** The sample loop and the retry loop

    Lines 81-115 ([read_overlapping_instance]) and lines 194-228
    ([read_simpletiled_instance]) are the same two nested loops up to
    the instance constructed ([run]: seed to result of [wfc.run()]),
    the bound of the inner loop ([bound]: [nb_tries], or the literal 10)
    and the line printed after a failed try ([fail_line]). *)
Section Loops.
Variable run : Z -> Array2D Color.
Variable verbose : bool.
Variable fail_line : string.
Variable bound : Z.

(** The body of the retry loop (lines 85-104, 198-217), at counter
    [test] of sample [i]: the new locals and the new [finished]. *)
Definition try_body (i test : Z) (st : Locals) : Locals * bool * Trace :=
  let seed := if 0 <? test then increment_seed (l_seed st) else l_seed st in
  let result := run seed in
  let ran := EngineRun (mkTry i test seed result) in
  if has_size result then
    (mkLocals seed result (l_results_vec st ++ arr_data result), true,
     ran :: (if verbose then [Cout "Finished!"] else []))
  else
    (mkLocals seed result (l_results_vec st), false,
     ran :: (if verbose then [Cout fail_line] else [])).

(** [for (unsigned test = ...; test < bound && !finished; test++)],
    entered with [remaining = bound - test] iterations left before
    [test < bound] fails. *)
Fixpoint tries_loop (remaining : nat) (i test : Z) (st : Locals)
    (finished : bool) : Locals * bool * Trace :=
  match remaining with
  | O => (st, finished, [])
  | S remaining' =>
      if finished then (st, finished, [])
      else
        let '(st1, finished1, tr1) := try_body i test st in
        let '(st2, finished2, tr2) :=
          tries_loop remaining' i (test + 1) st1 finished1 in
        (st2, finished2, tr1 ++ tr2)
  end.

(** The body of the sample loop (lines 82-114, 195-227). *)
Definition sample_body (i : Z) (st : Locals) : Locals * Trace :=
  let '(st1, _, tr1) := tries_loop (Z.to_nat bound) i 0 st false in
  (st1,
   tr1 ++
   (if has_size (l_result st1) then
      if verbose then [Cout "Finished one sample!"] else []
    else [Cout "WARNING: Failed to generate one of the samples!"])).


(** [for (unsigned i = ...; i < nb_samples; i++)], entered with
    [remaining = nb_samples - i]. *)
Fixpoint samples_loop (remaining : nat) (i : Z) (st : Locals)
    : Locals * Trace :=
  match remaining with
  | O => (st, [])
  | S remaining' =>
      let '(st1, tr1) := sample_body i st in
      let '(st2, tr2) := samples_loop remaining' (i + 1) st1 in
      (st2, tr1 ++ tr2)
  end.
End Loops.

(** *** [read_overlapping_instance] (lines 58-118) *)
Definition read_overlapping_instance
    (seed width height : Z) (periodic_output : bool) (N : Z)
    (periodic_input ground : bool) (nb_samples symmetry : Z)
    (input_img : list Color) (input_width input_height : Z)
    (verbose : bool) (nb_tries : Z) : Prog Color (list Color) :=
  do when verbose (cout "Started!");
  let m := array2d_from_vector input_img input_width input_height in
  do (if (arr_width m =? 0) && (arr_height m =? 0)
      then throw (CString "Error while loading the map to sample from.")
      else ret tt);
  let result := Array2D_0_0 in
  let results_vec := [] in
  let options :=
    mkOverlappingWFCOptions
      periodic_input periodic_output height width symmetry ground N in
  let* st :=
    traced
      (samples_loop (OverlappingWFC_run m options) verbose
         "Failed to generate!" nb_tries
         (Z.to_nat nb_samples) 0 (mkLocals seed result results_vec)) in
  ret (l_results_vec st).

(** *** [to_symmetry] (lines 123-143) *)
Definition backslash_name : string :=
  String (Ascii.ascii_of_N 92) EmptyString.

Definition to_symmetry (symmetry_name : string) : Outcome Symmetry.t :=
  if String.eqb symmetry_name "X" then Returned Symmetry.X
  else if String.eqb symmetry_name "T" then Returned Symmetry.T
  else if String.eqb symmetry_name "I" then Returned Symmetry.I
  else if String.eqb symmetry_name "L" then Returned Symmetry.L
  else if String.eqb symmetry_name backslash_name
       then Returned Symmetry.backslash
  else if String.eqb symmetry_name "P" then Returned Symmetry.P
  else Thrown (StdString (symmetry_name +:+ "is an invalid Symmetry")).

(** *** [pytile_to_tile] (lines 146-151) *)
Definition pytile_to_tile (pytile : PyTile Color double)
    : Outcome (Tile Color double) :=
  let image :=
    array2d_from_vector (py_tile pytile) (py_size pytile) (py_size pytile) in
  match to_symmetry (py_symmetry pytile) with
  | Returned s => Returned (mkTile image s (py_weight pytile))
  | Thrown e => Thrown e
  | Terminated => Terminated
  end.

(** *** [read_simpletiled_instance] (lines 156-231) *)

(** [tiles_id.insert({name, id})]: [unordered_map::insert] leaves the
    map alone when the key is already there. *)
Definition tiles_id_insert (name : string) (id : Z) (tiles_id : gmap string Z)
    : gmap string Z :=
  match tiles_id !! name with
  | Some _ => tiles_id
  | None => <[name := id]> tiles_id
  end.

(** The loop of lines 172-176 from index [i] on, [pytiles] being the
    tiles not visited yet. *)
Fixpoint tiles_loop (pytiles : list (PyTile Color double)) (id : Z)
    (tiles_id : gmap string Z) (tiles : list (Tile Color double))
    : Outcome (gmap string Z * list (Tile Color double)) :=
  match pytiles with
  | [] => Returned (tiles_id, tiles)
  | pytile :: rest =>
      let tiles_id := tiles_id_insert (py_name pytile) id tiles_id in
      match pytile_to_tile pytile with
      | Returned tile =>
          tiles_loop rest (to_unsigned (id + 1)) tiles_id (tiles ++ [tile])
      | Thrown e => Thrown e
      | Terminated => Terminated
      end
  end.

(** The loop of lines 179-192: [find(...) == end()] is a failed lookup,
    and [tiles_id[...]] after a successful [find] is the value found;
    the [int] orientations become the [unsigned] members of the tuple. *)
Fixpoint neighbors_loop (tiles_id : gmap string Z) (neighbors : list Neighbor)
    (neighbors_ids : list (Z * Z * Z * Z)) : list (Z * Z * Z * Z) :=
  match neighbors with
  | [] => neighbors_ids
  | neighbor :: rest =>
      let neighbor1 := nb_left neighbor in
      let orientation1 := nb_left_or neighbor in
      let neighbor2 := nb_right neighbor in
      let orientation2 := nb_right_or neighbor in
      match tiles_id !! neighbor1 with
      | None => neighbors_loop tiles_id rest neighbors_ids
      | Some id1 =>
          match tiles_id !! neighbor2 with
          | None => neighbors_loop tiles_id rest neighbors_ids
          | Some id2 =>
              neighbors_loop tiles_id rest
                (neighbors_ids ++
                 [(id1, to_unsigned orientation1,
                   id2, to_unsigned orientation2)])
          end
      end
  end.

Definition read_simpletiled_instance
    (seed width height nb_samples : Z) (periodic_output verbose : bool)
    (nb_tries : Z) (pytiles : list (PyTile Color double))
    (neighbors : list Neighbor) : Prog Color (list Color) :=
  noexcept (
    do when verbose (cout "Started!");
    let result := Array2D_0_0 in
    let results_vec := [] in
    let* built := lift (tiles_loop pytiles 0 ∅ []) in
    let '(tiles_id, tiles) := built in
    let neighbors_ids := neighbors_loop tiles_id neighbors [] in
    let* st :=
      traced
        (samples_loop
           (TilingWFC_run tiles neighbors_ids height width
              (mkTilingWFCOptions periodic_output))
           verbose "Failed!" 10
           (Z.to_nat nb_samples) 0 (mkLocals seed result results_vec)) in
    ret (l_results_vec st)).

(** *** [run_wfc_cpp] (lines 238-277)

    [clock k] is what the [k]-th call of [system_clock::now()] returns,
    in ticks of one nanosecond; [duration_cast] truncates towards zero
    and both durations are stored in an [int]. *)
Definition run_wfc_cpp (clock : nat -> Z)
    (seed width height sample_type : Z) (periodic_output : bool) (N : Z)
    (periodic_input ground : bool) (nb_samples symmetry : Z)
    (input_img : list Color) (input_width input_height : Z)
    (verbose : bool) (nb_tries : Z)
    (tiles : list (PyTile Color double)) (neighbors : list Neighbor)
    : Prog Color (list Color) :=
  let start := clock 0%nat in
  let* result :=
    (if sample_type =? 0 then
       read_simpletiled_instance seed width height nb_samples
         periodic_output verbose nb_tries tiles neighbors
     else if sample_type =? 1 then
       read_overlapping_instance seed width height periodic_output N
         periodic_input ground nb_samples symmetry input_img input_width
         input_height verbose nb_tries
     else
       throw
         (CString "choose 0 (simpletiled) or 1 (overlapping) on sample_type"))
  in
  let end_ := clock 1%nat in
  let elapsed_s := to_int (Z.quot (end_ - start) (10 ^ 9)) in
  let elapsed_ms := to_int (Z.quot (end_ - start) (10 ^ 6)) in
  do when verbose
       (cout ("All samples done in " +:+ pretty elapsed_s +:+ "s, " +:+
              pretty (Z.rem elapsed_ms 1000) +:+ "ms."));
  ret result.

End Driver.

(** ** The tries of a call, sample by sample

    The engine runs a call leaves are described here without the locals
    and the printing of the loops; [Section LoopFacts] proves that the
    loops of the driver leave exactly these runs. *)

Section Tries.
Context {E : WfcEngine}.
Variable run : Z -> Array2D Color.
Variable bound : Z.

(** The tries of sample [i] from counter [test] on, [seed] being the
    value of the variable when the counter is reached: they go on until
    one succeeds or [remaining] of them are made. *)
Fixpoint tries_from (remaining : nat) (i test seed : Z) : list (Try Color) :=
  match remaining with
  | O => []
  | S remaining' =>
      let s := if 0 <? test then increment_seed seed else seed in
      mkTry i test s (run s) ::
      (if has_size (run s) then []
       else tries_from remaining' i (test + 1) s)
  end.

(** The value of [seed] after the tries [rs], when it was [seed] before. *)
Definition seed_after (rs : list (Try Color)) (seed : Z) : Z :=
  match last rs with
  | Some t => try_seed t
  | None => seed
  end.

(** The value of [seed] on entry of sample [i + k], when it is [seed] on
    entry of sample [i]. *)
Fixpoint entry_seed (k : nat) (i seed : Z) : Z :=
  match k with
  | O => seed
  | S k' =>
      entry_seed k' (i + 1)
        (seed_after (tries_from (Z.to_nat bound) i 0 seed) seed)
  end.

(** The tries of samples [i], [i + 1], ..., [i + remaining - 1]. *)
Fixpoint samples_from (remaining : nat) (i seed : Z) : list (Try Color) :=
  match remaining with
  | O => []
  | S remaining' =>
      tries_from (Z.to_nat bound) i 0 seed ++
      samples_from remaining' (i + 1)
        (seed_after (tries_from (Z.to_nat bound) i 0 seed) seed)
  end.
End Tries.

(** ** Reading a trace *)

Definition warning_line : string :=
  "WARNING: Failed to generate one of the samples!".

(** The line [run_wfc_cpp] prints last, when [verbose]. *)
Definition timing_line (clock : nat -> Z) : string :=
  "All samples done in " +:+
  pretty (to_int (Z.quot (clock 1%nat - clock 0%nat) (10 ^ 9))) +:+ "s, " +:+
  pretty (Z.rem (to_int (Z.quot (clock 1%nat - clock 0%nat) (10 ^ 6))) 1000)
  +:+ "ms.".

(** The warnings among the lines written to [std::cout]. *)
Definition warnings {C : Type} (tr : list (Event C)) : list string :=
  filter (fun line => line = warning_line) (stdout tr).

(** The pixel data sample [i] produced: that of its successful try, if it
    has one among the engine runs [rs]. *)
Definition sample_output {C : Type} (i : Z) (rs : list (Try C))
  : option (list C) :=
  match filter (fun t => try_succeeded t = true) (tries_of_sample i rs) with
  | t :: _ => Some (arr_data (try_result t))
  | [] => None
  end.

(** The pixel data of the successful tries among [rs], concatenated. *)
Definition pixels_of {C : Type} (rs : list (Try C)) : list C :=
  concat (map (fun t => arr_data (try_result t))
            (filter (fun t => try_succeeded t = true) rs)).

(** The call returned: no exception left it and it did not terminate. *)
Definition returned {C A : Type} (call : Prog C A) : Prop :=
  match call.1 with
  | Returned _ => True
  | _ => False
  end.

(** Among the engine runs [rs], sample [i + 1] starts at the seed sample
    [i] ended with, which is the seed sample [i] started from exactly
    when sample [i] made a single try. *)
Definition carries_seed {C : Type} (i : Z) (rs : list (Try C)) : Prop :=
  exists first_i last_i first_next,
    head (tries_of_sample i rs) = Some first_i /\
    last (tries_of_sample i rs) = Some last_i /\
    head (tries_of_sample (i + 1) rs) = Some first_next /\
    try_seed first_next = try_seed last_i /\
    (try_seed first_next = try_seed first_i <->
     length (tries_of_sample i rs) = 1%nat).

(** Among the engine runs [rs], the first try of sample 0 runs at [seed]. *)
Definition starts_at {C : Type} (seed : Z) (rs : list (Try C)) : Prop :=
  exists t, head (tries_of_sample 0 rs) = Some t /\ try_seed t = seed.

(** The samples of a call, in order: [0], ..., [nb_samples - 1]. *)
Definition samples (nb_samples : Z) : list Z := seqZ 0 nb_samples.

(** ** The tiles and the neighbor rules in terms of the tile list *)

(** The six names [to_symmetry] knows (lines 124-141). *)
Definition symmetry_names : list string :=
  ["X"; "T"; "I"; "L"; String (Ascii.ascii_of_N 92) EmptyString; "P"].

(** The name [to_symmetry] reads a symmetry from. *)
Definition symmetry_name (s : Symmetry.t) : string :=
  match s with
  | Symmetry.X => "X"
  | Symmetry.T => "T"
  | Symmetry.I => "I"
  | Symmetry.L => "L"
  | Symmetry.backslash => String (Ascii.ascii_of_N 92) EmptyString
  | Symmetry.P => "P"
  end.

(** The id of a tile name: the position of the first tile of that name,
    counted from [id]. *)
Fixpoint tile_id_from {C W : Type} (id : Z) (pytiles : list (PyTile C W))
    (name : string) : option Z :=
  match pytiles with
  | [] => None
  | pytile :: rest =>
      if decide (py_name pytile = name) then Some id
      else tile_id_from (id + 1) rest name
  end.

(** A neighbor entry both of whose names are names of tiles. *)
Definition known_names {C W : Type} (pytiles : list (PyTile C W))
    (neighbor : Neighbor) : Prop :=
  nb_left neighbor ∈ map py_name pytiles /\
  nb_right neighbor ∈ map py_name pytiles.

#[global] Instance known_names_dec {C W : Type} (pytiles : list (PyTile C W))
  (neighbor : Neighbor) : Decision (known_names pytiles neighbor).
Proof. unfold known_names. apply _. Defined.

(** A neighbor entry whose orientations are non-negative [int]s. *)
Definition valid_orientations (neighbor : Neighbor) : Prop :=
  0 <= nb_left_or neighbor < 2 ^ 31 /\ 0 <= nb_right_or neighbor < 2 ^ 31.

(** The rule a neighbor entry with known names stands for. *)
Definition rule_of {C W : Type} (pytiles : list (PyTile C W))
    (neighbor : Neighbor) : Z * Z * Z * Z :=
  (default 0 (tile_id_from 0 pytiles (nb_left neighbor)),
   nb_left_or neighbor,
   default 0 (tile_id_from 0 pytiles (nb_right neighbor)),
   nb_right_or neighbor).

(** ** Concrete engines and inputs, for evaluating the driver *)

Module Examples.

(** An engine whose tries fail unless the seed is a multiple of 3; a
    successful overlapping run is the 1x1 image holding the seed, a
    successful tiled run the 1x2 image holding the seed and the number
    of neighbor rules received. *)
Definition mod3_engine : WfcEngine := {|
  Color := Z;
  double := Z;
  OverlappingWFC_run := fun _ _ seed =>
    if seed mod 3 =? 0 then mkArray2D 1 1 [seed] else Array2D_0_0;
  TilingWFC_run := fun _ neighbors_ids _ _ _ seed =>
    if seed mod 3 =? 0
    then mkArray2D 1 2 [seed; Z.of_nat (length neighbors_ids)]
    else Array2D_0_0;
|}.

(** An engine whose every try fails. *)
Definition failing_engine : WfcEngine := {|
  Color := Z;
  double := Z;
  OverlappingWFC_run := fun _ _ _ => Array2D_0_0;
  TilingWFC_run := fun _ _ _ _ _ _ => Array2D_0_0;
|}.

Definition clock_a : nat -> Z := fun k => 1000 + 2500000000 * Z.of_nat k.
Definition clock_b : nat -> Z := fun k => 77 * Z.of_nat k.

Definition tile_A : PyTile Z Z := mkPyTile 1 [10] "A" "X" 1.
Definition tile_B : PyTile Z Z := mkPyTile 1 [20] "B" "L" 1.
Definition tile_bad : PyTile Z Z := mkPyTile 1 [30] "C" "Z" 1.

Definition rules : list Neighbor :=
  [mkNeighbor "A" 0 "B" 1; mkNeighbor "A" 0 "Q" 0;
   mkNeighbor "Q" 2 "B" 0; mkNeighbor "B" 3 "B" 0].

End Examples.

Module MoreExamples.

(** A second tile named "A", and a tile list in which the name occurs
    twice. *)
Definition tile_A2 : PyTile Z Z := mkPyTile 2 [40; 41] "A" "T" 1.

Definition tiles_twice : list (PyTile Z Z) :=
  [Examples.tile_A; Examples.tile_B; tile_A2].

End MoreExamples.

(** * Properties *)

(** ** [increment_seed] *)

Lemma to_unsigned_id z : 0 <= z < 2 ^ 32 -> to_unsigned z = z.
Proof. intros H. unfold to_unsigned. now apply Z.mod_small. Qed.

Lemma increment_seed_below seed :
  0 <= seed < UINT_MAX - 1 -> increment_seed seed = seed + 1.
Proof.
  intros H. unfold increment_seed, UINT_MAX in *.
  destruct (Z.ltb_spec seed (2 ^ 32 - 1 - 1)); [|lia].
  apply to_unsigned_id. lia.
Qed.

Lemma increment_seed_top seed :
  UINT_MAX - 1 <= seed -> increment_seed seed = 0.
Proof.
  intros H. unfold increment_seed.
  destruct (Z.ltb_spec seed (UINT_MAX - 1)); [lia|reflexivity].
Qed.

(** Away from [UINT_MAX - 1], the next seed is the successor modulo
    [2 ^ 32]. *)
Lemma increment_seed_succ_mod seed :
  is_unsigned seed -> seed <> UINT_MAX - 1 ->
  increment_seed seed = (seed + 1) mod 2 ^ 32.
Proof.
  unfold is_unsigned. intros H Hne.
  destruct (Z_lt_le_dec seed (UINT_MAX - 1)) as [Hlt|Hge].
  - rewrite increment_seed_below by lia.
    unfold UINT_MAX in *. rewrite Z.mod_small; lia.
  - rewrite increment_seed_top by lia.
    assert (seed = 2 ^ 32 - 1) as -> by (unfold UINT_MAX in *; lia).
    reflexivity.
Qed.

Lemma increment_seed_range seed :
  is_unsigned seed -> is_unsigned (increment_seed seed).
Proof.
  unfold is_unsigned. intros H.
  destruct (Z_lt_le_dec seed (UINT_MAX - 1)) as [Hlt|Hge].
  - rewrite increment_seed_below by lia. lia.
  - rewrite increment_seed_top by lia. unfold UINT_MAX. lia.
Qed.

Lemma iter_increment_seed_range k seed :
  is_unsigned seed -> is_unsigned (Nat.iter k increment_seed seed).
Proof.
  intros H. induction k as [|k IH]; [assumption|].
  rewrite Nat.iter_succ. now apply increment_seed_range.
Qed.

(** [k] increments from a seed below [UINT_MAX] walk the cycle
    [0, 1, ..., UINT_MAX - 1]. *)
Lemma iter_increment_seed_cycle k seed :
  0 <= seed < UINT_MAX -> (Z.of_nat k <= UINT_MAX)%Z ->
  Nat.iter k increment_seed seed =
  if seed + Z.of_nat k <? UINT_MAX then seed + Z.of_nat k
  else seed + Z.of_nat k - UINT_MAX.
Proof.
  intros Hs. induction k as [|k IH]; intros Hk.
  - simpl. destruct (Z.ltb_spec (seed + Z.of_nat 0) UINT_MAX); lia.
  - rewrite Nat.iter_succ, IH by lia.
    destruct (Z.ltb_spec (seed + Z.of_nat k) UINT_MAX) as [H1|H1];
      destruct (Z.ltb_spec (seed + Z.of_nat (S k)) UINT_MAX) as [H2|H2];
      try lia.
    + rewrite increment_seed_below by lia. lia.
    + rewrite increment_seed_top by lia. lia.
    + rewrite increment_seed_below by lia. lia.
Qed.

(** Fewer than [UINT_MAX] increments never come back to the seed they
    started from. *)
Lemma iter_increment_seed_neq k seed :
  is_unsigned seed -> (0 < k)%nat -> Z.of_nat k < UINT_MAX ->
  Nat.iter k increment_seed seed <> seed.
Proof.
  unfold is_unsigned. intros Hs Hk Hlt.
  destruct (Z_lt_le_dec seed UINT_MAX) as [Hin|Htop].
  - rewrite iter_increment_seed_cycle by lia.
    destruct (Z.ltb_spec (seed + Z.of_nat k) UINT_MAX); lia.
  - assert (seed = UINT_MAX) as -> by lia.
    destruct k as [|k]; [lia|].
    rewrite Nat.iter_succ_r.
    rewrite (increment_seed_top UINT_MAX) by lia.
    rewrite iter_increment_seed_cycle by (unfold UINT_MAX in *; lia).
    destruct (Z.ltb_spec (0 + Z.of_nat k) UINT_MAX); lia.
Qed.

(** ** The tries of one sample *)

Section TriesFacts.
Context {E : WfcEngine}.
Variable run : Z -> Array2D Color.

Lemma tries_from_length n i test seed :
  (length (tries_from run n i test seed) <= n)%nat.
Proof.
  revert test seed. induction n as [|n IH]; intros test seed; simpl.
  - lia.
  - destruct (has_size _); simpl; [lia|].
    specialize (IH (test + 1)
      (if 0 <? test then increment_seed seed else seed)). lia.
Qed.

Lemma tries_from_nonempty n i test seed :
  n <> O -> tries_from run n i test seed <> [].
Proof. destruct n; [congruence|]. simpl. discriminate. Qed.

Lemma tries_from_sample n i test seed :
  Forall (fun t => try_sample t = i) (tries_from run n i test seed).
Proof.
  revert test seed. induction n as [|n IH]; intros test seed; simpl.
  - constructor.
  - constructor; [reflexivity|].
    destruct (has_size _); [constructor|apply IH].
Qed.

(** Every try but the last one failed. *)
Lemma tries_from_stops n i test seed l1 t l2 :
  tries_from run n i test seed = l1 ++ t :: l2 ->
  try_succeeded t = true -> l2 = [].
Proof.
  revert test seed l1. induction n as [|n IH]; intros test seed l1; simpl.
  - intros H. destruct l1; discriminate.
  - set (s := if 0 <? test then increment_seed seed else seed).
    destruct (has_size (run s)) eqn:Hsz; intros H Ht.
    + destruct l1 as [|t1 l1]; simplify_eq/=; [reflexivity|].
      destruct l1; discriminate.
    + destruct l1 as [|t1 l1]; simplify_eq/=.
      * unfold try_succeeded in Ht. simpl in Ht. congruence.
      * eapply IH; eassumption.
Qed.

(** The [k]-th try of a sample runs at counter [test + k], [k]
    increments after the first one. *)
Lemma tries_from_lookup n i test seed k t :
  0 <= test ->
  tries_from run n i test seed !! k = Some t ->
  try_test t = test + Z.of_nat k /\
  try_seed t =
    Nat.iter k increment_seed
      (if 0 <? test then increment_seed seed else seed) /\
  try_result t = run (try_seed t).
Proof.
  revert test seed k. induction n as [|n IH]; intros test seed k Htest; simpl.
  - intros H. discriminate.
  - set (s := if 0 <? test then increment_seed seed else seed).
    destruct k as [|k]; simpl.
    + intros [= <-]. simpl. split; [lia|]. split; reflexivity.
    + destruct (has_size (run s)); [intros H; discriminate|].
      intros H. apply IH in H; [|lia].
      destruct H as (H1 & H2 & H3). split; [lia|]. split; [|assumption].
      rewrite H2. destruct (Z.ltb_spec 0 (test + 1)); [|lia].
      rewrite <- Nat.iter_succ_r. reflexivity.
Qed.

(** The successful tries of a sample: none, or the last try alone. *)
Lemma tries_from_succeeded n i test seed :
  let rs := tries_from run n i test seed in
  filter (fun t => try_succeeded t = true) rs =
  match last rs with
  | Some t => if try_succeeded t then [t] else []
  | None => []
  end.
Proof.
  revert test seed. induction n as [|n IH]; intros test seed; simpl.
  - reflexivity.
  - set (s := if 0 <? test then increment_seed seed else seed).
    destruct (has_size (run s)) eqn:Hsz.
    + simpl. rewrite filter_cons_True by exact Hsz.
      unfold try_succeeded. simpl. now rewrite Hsz.
    + rewrite filter_cons_False
        by (unfold try_succeeded; simpl; congruence).
      specialize (IH (test + 1) s). simpl in IH. rewrite IH.
      rewrite last_cons. destruct (last _) as [t|]; [reflexivity|].
      unfold try_succeeded. simpl. now rewrite Hsz.
Qed.

Lemma head_tries_from n i seed t :
  head (tries_from run n i 0 seed) = Some t -> try_seed t = seed.
Proof. destruct n; simpl; [discriminate|]. now intros [= <-]. Qed.

End TriesFacts.

(** ** The tries of a call *)

Section ListFacts.
Context {A : Type} (P : A -> Prop) `{!forall x, Decision (P x)}.

Lemma filter_all (l : list A) : Forall P l -> filter P l = l.
Proof.
  induction 1 as [|x l Hx Hl IH]; [reflexivity|].
  rewrite filter_cons_True by assumption. now rewrite IH.
Qed.

Lemma filter_none (l : list A) :
  Forall (fun x => ~ P x) l -> filter P l = [].
Proof.
  induction 1 as [|x l Hx Hl IH]; [reflexivity|].
  now rewrite filter_cons_False by assumption.
Qed.

Lemma filter_ext_in (Q : A -> Prop) `{!forall x, Decision (Q x)}
    (l : list A) :
  Forall (fun x => P x <-> Q x) l -> filter P l = filter Q l.
Proof.
  induction 1 as [|x l Hx Hl IH]; [reflexivity|].
  destruct (decide (P x)) as [HP|HP].
  - rewrite !filter_cons_True by tauto. now rewrite IH.
  - rewrite !filter_cons_False by tauto. exact IH.
Qed.

Lemma omap_ext_in {B : Type} (f g : A -> option B) (l : list A) :
  Forall (fun x => f x = g x) l -> omap f l = omap g l.
Proof.
  induction 1 as [|x l Hx Hl IH]; [reflexivity|].
  cbn. now rewrite Hx, IH.
Qed.
End ListFacts.

Lemma seqZ_succ i (n : nat) :
  seqZ i (Z.of_nat (S n)) = i :: seqZ (i + 1) (Z.of_nat n).
Proof.
  rewrite seqZ_cons by lia. f_equal. f_equal; lia.
Qed.

Section SamplesFacts.
Context {E : WfcEngine}.
Variable run : Z -> Array2D Color.
Variable bound : Z.

Lemma tries_of_sample_app j (rs1 rs2 : list (Try Color)) :
  tries_of_sample j (rs1 ++ rs2) =
  tries_of_sample j rs1 ++ tries_of_sample j rs2.
Proof. apply filter_app. Qed.

Lemma tries_from_of_sample n i test seed :
  tries_of_sample i (tries_from run n i test seed) =
  tries_from run n i test seed.
Proof. apply filter_all, tries_from_sample. Qed.

Lemma tries_from_of_other n i j test seed :
  j <> i -> tries_of_sample j (tries_from run n i test seed) = [].
Proof.
  intros Hne. apply filter_none.
  eapply Forall_impl; [apply tries_from_sample|].
  simpl. intros t Ht. congruence.
Qed.

Lemma samples_from_sample n i seed :
  Forall (fun t => i <= try_sample t < i + Z.of_nat n)
    (samples_from run bound n i seed).
Proof.
  revert i seed. induction n as [|n IH]; intros i seed; simpl.
  - constructor.
  - apply Forall_app. split.
    + eapply Forall_impl; [apply tries_from_sample|].
      simpl. intros t Ht. lia.
    + eapply Forall_impl; [apply IH|]. simpl. intros t Ht. lia.
Qed.

Lemma samples_from_outside n i seed j :
  ~ (i <= j < i + Z.of_nat n) ->
  tries_of_sample j (samples_from run bound n i seed) = [].
Proof.
  intros Hj. apply filter_none.
  eapply Forall_impl; [apply samples_from_sample|].
  simpl. intros t Ht Heq. lia.
Qed.

(** The tries of sample [i + k] start from the seed the samples before
    it left. *)
Lemma samples_from_block n i seed k :
  (k < n)%nat ->
  tries_of_sample (i + Z.of_nat k) (samples_from run bound n i seed) =
  tries_from run (Z.to_nat bound) (i + Z.of_nat k) 0
    (entry_seed run bound k i seed).
Proof.
  revert i seed k. induction n as [|n IH]; intros i seed k Hk; [lia|].
  simpl. rewrite tries_of_sample_app. destruct k as [|k].
  - replace (i + Z.of_nat 0) with i by lia.
    rewrite tries_from_of_sample.
    rewrite samples_from_outside by lia. now rewrite app_nil_r.
  - rewrite tries_from_of_other by lia. simpl.
    replace (i + Z.of_nat (S k)) with (i + 1 + Z.of_nat k) by lia.
    apply IH. lia.
Qed.

Lemma entry_seed_succ k i seed :
  entry_seed run bound (S k) i seed =
  seed_after
    (tries_from run (Z.to_nat bound) (i + Z.of_nat k) 0
       (entry_seed run bound k i seed))
    (entry_seed run bound k i seed).
Proof.
  revert i seed. induction k as [|k IH]; intros i seed.
  - simpl. now replace (i + Z.of_nat 0) with i by lia.
  - change (entry_seed run bound (S (S k)) i seed)
      with (entry_seed run bound (S k) (i + 1)
              (seed_after (tries_from run (Z.to_nat bound) i 0 seed) seed)).
    rewrite IH.
    replace (i + 1 + Z.of_nat k) with (i + Z.of_nat (S k)) by lia.
    reflexivity.
Qed.

Lemma seed_after_tries_range n i seed :
  is_unsigned seed ->
  is_unsigned (seed_after (tries_from run n i 0 seed) seed).
Proof.
  intros Hs. unfold seed_after. rewrite last_lookup.
  destruct (_ !! _) as [t|] eqn:Ht; [|assumption].
  apply tries_from_lookup in Ht as (_ & -> & _); [|lia].
  now apply iter_increment_seed_range.
Qed.

Lemma entry_seed_range k i seed :
  is_unsigned seed -> is_unsigned (entry_seed run bound k i seed).
Proof.
  revert i seed. induction k as [|k IH]; intros i seed Hs; [assumption|].
  simpl. apply IH. now apply seed_after_tries_range.
Qed.

End SamplesFacts.

(** ** The loops of the driver *)

Section TraceFacts.
Context {C : Type}.
Implicit Types (tr : list (Event C)) (t : Try C) (rs : list (Try C)).

Lemma engine_runs_app tr1 tr2 :
  engine_runs (tr1 ++ tr2) = engine_runs tr1 ++ engine_runs tr2.
Proof. apply omap_app. Qed.

Lemma engine_runs_run t tr :
  engine_runs (EngineRun t :: tr) = t :: engine_runs tr.
Proof. reflexivity. Qed.

Lemma engine_runs_cout line tr :
  engine_runs (Cout line :: tr) = engine_runs tr.
Proof. reflexivity. Qed.

Lemma stdout_app tr1 tr2 : stdout (tr1 ++ tr2) = stdout tr1 ++ stdout tr2.
Proof. apply omap_app. Qed.

Lemma warnings_app tr1 tr2 :
  warnings (tr1 ++ tr2) = warnings tr1 ++ warnings tr2.
Proof. unfold warnings. now rewrite stdout_app, filter_app. Qed.

Lemma warnings_run t tr : warnings (EngineRun t :: tr) = warnings tr.
Proof. reflexivity. Qed.

Lemma warnings_cout_other line tr :
  line <> warning_line -> warnings (Cout line :: tr) = warnings tr.
Proof.
  intros H. unfold warnings.
  change (stdout (Cout line :: tr)) with (line :: stdout tr).
  now rewrite (filter_cons_False (fun l => l = warning_line)).
Qed.

Lemma pixels_of_app rs1 rs2 :
  pixels_of (rs1 ++ rs2) = pixels_of rs1 ++ pixels_of rs2.
Proof. unfold pixels_of. now rewrite filter_app, map_app, concat_app. Qed.

Lemma pixels_of_success t rs :
  try_succeeded t = true ->
  pixels_of (t :: rs) = arr_data (try_result t) ++ pixels_of rs.
Proof.
  intros H. unfold pixels_of.
  now rewrite (filter_cons_True (fun t => try_succeeded t = true)).
Qed.

Lemma pixels_of_failure t rs :
  try_succeeded t = false -> pixels_of (t :: rs) = pixels_of rs.
Proof.
  intros H. unfold pixels_of.
  rewrite (filter_cons_False (fun t => try_succeeded t = true));
    [reflexivity|congruence].
Qed.
End TraceFacts.

Section LoopFacts.
Context {E : WfcEngine}.
Variable run : Z -> Array2D Color.
Variable verbose : bool.
Variable fail_line : string.
Variable bound : Z.
Hypothesis fail_line_not_warning : fail_line <> warning_line.

Lemma tries_loop_finished n i test st :
  tries_loop run verbose fail_line n i test st true = (st, true, []).
Proof. destruct n; reflexivity. Qed.

Lemma engine_runs_when_cout line (tr : list (Event Color)) :
  engine_runs ((if verbose then [Cout line] else []) ++ tr) = engine_runs tr.
Proof. now destruct verbose. Qed.

Lemma warnings_when_cout line (tr : list (Event Color)) :
  line <> warning_line ->
  warnings ((if verbose then [Cout line] else []) ++ tr) = warnings tr.
Proof.
  intros H. destruct verbose; [|reflexivity].
  now apply warnings_cout_other.
Qed.

(** The retry loop, entered with [finished = false], makes the tries
    [tries_from] lists and leaves the locals of the last one. *)
Lemma tries_loop_spec n i test st :
  let r := tries_loop run verbose fail_line n i test st false in
  let rs := tries_from run n i test (l_seed st) in
  engine_runs r.2 = rs /\
  r.1.2 = match last rs with Some t => try_succeeded t | None => false end /\
  l_seed r.1.1 = seed_after rs (l_seed st) /\
  l_result r.1.1 =
    match last rs with Some t => try_result t | None => l_result st end /\
  l_results_vec r.1.1 = l_results_vec st ++ pixels_of rs /\
  warnings r.2 = [].
Proof.
  revert test st. induction n as [|n IH]; intros test st.
  - simpl. rewrite app_nil_r. repeat split; reflexivity.
  - cbn [tries_loop tries_from]. unfold try_body.
    set (s := if 0 <? test then increment_seed (l_seed st) else l_seed st).
    set (t := mkTry i test s (run s)).
    assert (Ht : try_succeeded t = has_size (run s)) by reflexivity.
    destruct (has_size (run s)) eqn:Hsz.
    + rewrite tries_loop_finished.
      cbn -[engine_runs warnings pixels_of].
      rewrite app_nil_r, engine_runs_run, warnings_run.
      rewrite <- (app_nil_r (if verbose then _ else _)).
      rewrite engine_runs_when_cout, warnings_when_cout by discriminate.
      rewrite pixels_of_success by exact Ht.
      unfold seed_after. cbn. rewrite app_nil_r.
      repeat split; try reflexivity. now rewrite Ht.
    + specialize (IH (test + 1) (mkLocals s (run s) (l_results_vec st))).
      destruct (tries_loop _ _ _ _ _ _ _ _) as [[st2 fin2] tr2].
      cbn -[engine_runs warnings pixels_of last] in IH |- *.
      destruct IH as (IH1 & IH2 & IH3 & IH4 & IH5 & IH6).
      rewrite engine_runs_run, warnings_run.
      rewrite engine_runs_when_cout, warnings_when_cout by assumption.
      rewrite pixels_of_failure by exact Ht.
      unfold seed_after in *. rewrite last_cons.
      repeat split.
      * now rewrite IH1.
      * rewrite IH2. destruct (last _); [reflexivity|].
        now rewrite Ht.
      * rewrite IH3. now destruct (last _).
      * rewrite IH4. now destruct (last _).
      * exact IH5.
      * exact IH6.
Qed.

(** One iteration of the sample loop: the tries of the sample, and a
    warning exactly when none of them succeeded.  When the bound is 0
    the loop makes no try and [result] is the one it was entered with. *)
Lemma sample_body_spec i st :
  (bound <= 0 -> has_size (l_result st) = false) ->
  let r := sample_body run verbose fail_line bound i st in
  let rs := tries_from run (Z.to_nat bound) i 0 (l_seed st) in
  engine_runs r.2 = rs /\
  l_seed r.1 = seed_after rs (l_seed st) /\
  l_results_vec r.1 = l_results_vec st ++ pixels_of rs /\
  warnings r.2 =
    match filter (fun t => try_succeeded t = true) rs with
    | [] => [warning_line]
    | _ :: _ => []
    end /\
  (bound <= 0 -> has_size (l_result r.1) = false).
Proof.
  intros Hinv. unfold sample_body.
  pose proof (tries_loop_spec (Z.to_nat bound) i 0 st) as Hspec.
  pose proof (tries_from_succeeded run (Z.to_nat bound) i 0 (l_seed st))
    as Hsucc.
  pose proof (tries_from_nonempty run (Z.to_nat bound) i 0 (l_seed st))
    as Hne.
  destruct (tries_loop _ _ _ _ _ _ _ _) as [[st1 fin1] tr1].
  cbn -[engine_runs warnings pixels_of last filter] in Hspec, Hsucc |- *.
  destruct Hspec as (H1 & _ & H3 & H4 & H5 & H6).
  rewrite engine_runs_app, warnings_app, H1, H6, Hsucc, H4.
  destruct (last (tries_from _ _ _ _ _)) as [t|] eqn:Hlast.
  - change (has_size (try_result t)) with (try_succeeded t).
    assert (Hpos : ~ bound <= 0).
    { intros Hb. replace (Z.to_nat bound) with O in Hlast by lia.
      discriminate. }
    destruct (try_succeeded t); repeat split; try assumption; try lia.
    + destruct verbose; apply app_nil_r.
    + destruct verbose; reflexivity.
    + apply app_nil_r.
  - assert (Hb : bound <= 0).
    { destruct (Z_le_gt_dec bound 0) as [|Hgt]; [assumption|].
      exfalso. apply Hne; [lia|]. now apply last_None. }
    rewrite (Hinv Hb). repeat split; try assumption.
    apply app_nil_r.
Qed.

(** The sample loop: the tries of the samples one after the other, the
    pixels of the successful ones appended to [results_vec], and one
    warning for every sample without a successful try. *)
Lemma samples_loop_spec n i st :
  (bound <= 0 -> has_size (l_result st) = false) ->
  let r := samples_loop run verbose fail_line bound n i st in
  let rs := samples_from run bound n i (l_seed st) in
  engine_runs r.2 = rs /\
  l_results_vec r.1 = l_results_vec st ++ pixels_of rs /\
  length (warnings r.2) =
    length (filter (fun j => sample_output j rs = None)
              (seqZ i (Z.of_nat n))).
Proof.
  revert i st. induction n as [|n IH]; intros i st Hinv.
  - cbn. rewrite app_nil_r. repeat split; reflexivity.
  - cbn [samples_loop samples_from].
    pose proof (sample_body_spec i st Hinv) as Hbody.
    destruct (sample_body _ _ _ _ _ _) as [st1 tr1].
    cbn -[engine_runs warnings pixels_of filter] in Hbody.
    destruct Hbody as (B1 & B2 & B3 & B4 & B5).
    specialize (IH (i + 1) st1 B5).
    destruct (samples_loop _ _ _ _ _ _ _) as [st2 tr2].
    cbn -[engine_runs warnings pixels_of filter] in IH |- *.
    destruct IH as (I1 & I2 & I3).
    rewrite B2 in I1, I2, I3.
    set (rs1 := tries_from run (Z.to_nat bound) i 0 (l_seed st)) in *.
    set (rest := samples_from run bound n (i + 1)
                   (seed_after rs1 (l_seed st))) in *.
    rewrite engine_runs_app, warnings_app, B1, I1, I2, B3, B4.
    rewrite pixels_of_app, app_assoc, length_app, I3, seqZ_succ.
    repeat split.
    assert (Hhead : sample_output i (rs1 ++ rest) =
              match filter (fun t => try_succeeded t = true) rs1 with
              | [] => None
              | t :: _ => Some (arr_data (try_result t))
              end).
    { unfold sample_output. rewrite tries_of_sample_app.
      subst rs1 rest. rewrite tries_from_of_sample.
      rewrite samples_from_outside by lia. now rewrite app_nil_r. }
    assert (Htail : filter (fun j => sample_output j (rs1 ++ rest) = None)
                      (seqZ (i + 1) (Z.of_nat n)) =
                    filter (fun j => sample_output j rest = None)
                      (seqZ (i + 1) (Z.of_nat n))).
    { apply filter_ext_in. apply Forall_seqZ. intros j Hj.
      unfold sample_output. rewrite tries_of_sample_app.
      subst rs1. rewrite tries_from_of_other by lia. reflexivity. }
    destruct (filter (fun t => try_succeeded t = true) rs1) eqn:Hf.
    + rewrite filter_cons_True by exact Hhead.
      cbn [length]. now rewrite Htail.
    + rewrite filter_cons_False by (rewrite Hhead; discriminate).
      cbn [length]. now rewrite Htail.
Qed.

(** The pixels of the successful tries are those of the successful
    samples, in the order of the samples. *)
Lemma pixels_of_samples_from n i seed :
  let rs := samples_from run bound n i seed in
  pixels_of rs =
  concat (omap (fun j => sample_output j rs) (seqZ i (Z.of_nat n))).
Proof.
  revert i seed. induction n as [|n IH]; intros i seed; [reflexivity|].
  cbn [samples_from]. cbv zeta.
  set (rs1 := tries_from run (Z.to_nat bound) i 0 seed).
  specialize (IH (i + 1) (seed_after rs1 seed)). cbv zeta in IH.
  set (rest := samples_from run bound n (i + 1) (seed_after rs1 seed)) in *.
  rewrite pixels_of_app, seqZ_succ, IH.
  assert (Htail : omap (fun j => sample_output j (rs1 ++ rest))
                    (seqZ (i + 1) (Z.of_nat n)) =
                  omap (fun j => sample_output j rest)
                    (seqZ (i + 1) (Z.of_nat n))).
  { apply omap_ext_in. apply Forall_seqZ. intros j Hj.
    unfold sample_output. rewrite tries_of_sample_app.
    subst rs1. rewrite tries_from_of_other by lia. reflexivity. }
  assert (Hhead : sample_output i (rs1 ++ rest) =
            match filter (fun t => try_succeeded t = true) rs1 with
            | [] => None
            | t :: _ => Some (arr_data (try_result t))
            end).
  { unfold sample_output. rewrite tries_of_sample_app.
    subst rs1 rest. rewrite tries_from_of_sample.
    rewrite samples_from_outside by lia. now rewrite app_nil_r. }
  change (omap ?f (i :: ?l)) with
    (match f i with Some y => y :: omap f l | None => omap f l end).
  cbv beta. rewrite Hhead, Htail.
  unfold pixels_of at 1.
  pose proof (tries_from_succeeded run (Z.to_nat bound) i 0 seed) as Hsucc.
  cbv zeta in Hsucc. fold rs1 in Hsucc. rewrite Hsucc.
  destruct (last rs1) as [t|]; [|reflexivity].
  destruct (try_succeeded t); [|reflexivity].
  cbn. now rewrite app_nil_r.
Qed.
End LoopFacts.

(** ** Tiles and neighbor rules *)

Section TilesFacts.
Context {E : WfcEngine}.
Implicit Types (pytiles : list (PyTile Color double)).
Implicit Types (tiles_id : gmap string Z).

Lemma to_symmetry_invalid name :
  name ∉ symmetry_names ->
  to_symmetry name = Thrown (StdString (name +:+ "is an invalid Symmetry")).
Proof.
  unfold symmetry_names, to_symmetry, backslash_name. intros Hname.
  repeat match goal with
  | |- context [String.eqb name ?s] =>
      destruct (String.eqb_spec name s) as [->|_];
        [exfalso; apply Hname; set_solver|]
  end.
  reflexivity.
Qed.

Lemma to_symmetry_valid name :
  name ∈ symmetry_names -> exists s, to_symmetry name = Returned s.
Proof.
  unfold symmetry_names, backslash_name. intros Hname.
  repeat (apply elem_of_cons in Hname as [->|Hname]; [eexists; reflexivity|]).
  now apply elem_of_nil in Hname.
Qed.

(** A tile with an unknown symmetry name makes the loop over the tiles
    throw. *)
Lemma tiles_loop_invalid pytiles id tiles_id tiles :
  Exists (fun pytile => py_symmetry pytile ∉ symmetry_names) pytiles ->
  exists e, tiles_loop pytiles id tiles_id tiles = Thrown e.
Proof.
  intros Hex. revert id tiles_id tiles.
  induction pytiles as [|pytile rest IH]; intros id tiles_id tiles.
  - inversion Hex.
  - cbn [tiles_loop]. unfold pytile_to_tile.
    destruct (decide (py_symmetry pytile ∈ symmetry_names)) as [Hin|Hout].
    + destruct (to_symmetry_valid _ Hin) as [s ->].
      apply IH. inversion Hex; subst; [contradiction|assumption].
    + rewrite (to_symmetry_invalid _ Hout). eauto.
Qed.


Lemma tiles_id_insert_lookup name id tiles_id name' :
  tiles_id_insert name id tiles_id !! name' =
  match tiles_id !! name' with
  | Some id' => Some id'
  | None => if decide (name = name') then Some id else None
  end.
Proof.
  unfold tiles_id_insert.
  destruct (tiles_id !! name) as [id0|] eqn:Hname.
  - destruct (tiles_id !! name') as [id'|] eqn:Hname'; [reflexivity|].
    destruct (decide (name = name')); [congruence|reflexivity].
  - destruct (decide (name = name')) as [<-|Hne].
    + now rewrite lookup_insert_eq, Hname.
    + rewrite lookup_insert_ne by assumption.
      now destruct (tiles_id !! name').
Qed.

(** After the loop over the tiles, a name is mapped to the position of
    the first tile that has it. *)
Lemma tiles_loop_lookup pytiles id tiles_id tiles built name :
  0 <= id -> id + Z.of_nat (length pytiles) <= 2 ^ 32 ->
  tiles_loop pytiles id tiles_id tiles = Returned built ->
  built.1 !! name =
  match tiles_id !! name with
  | Some id' => Some id'
  | None => tile_id_from id pytiles name
  end.
Proof.
  revert id tiles_id tiles.
  induction pytiles as [|pytile rest IH]; intros id tiles_id tiles Hid Hlen.
  - cbn. intros [= <-]. cbn. now destruct (tiles_id !! name).
  - cbn [tiles_loop tile_id_from length] in *.
    destruct (pytile_to_tile pytile) as [tile|e|]; try discriminate.
    intros Hloop.
    assert (Hnext : tile_id_from (to_unsigned (id + 1)) rest name =
                    tile_id_from (id + 1) rest name).
    { destruct rest; [reflexivity|].
      rewrite to_unsigned_id; [reflexivity|]. cbn [length] in Hlen. lia. }
    apply IH in Hloop.
    + rewrite Hloop, Hnext, tiles_id_insert_lookup.
      destruct (tiles_id !! name); [reflexivity|].
      now destruct (decide (py_name pytile = name)).
    + unfold to_unsigned. apply Z.mod_pos_bound. lia.
    + destruct rest; cbn [length] in *.
      * unfold to_unsigned.
        pose proof (Z.mod_pos_bound (id + 1) (2 ^ 32)). lia.
      * rewrite to_unsigned_id; lia.
Qed.

Lemma tile_id_from_is_Some id pytiles name :
  is_Some (tile_id_from id pytiles name) <-> name ∈ map py_name pytiles.
Proof.
  revert id. induction pytiles as [|pytile rest IH]; intros id; cbn.
  - split; [intros [? [=]]|intros H; now apply elem_of_nil in H].
  - rewrite elem_of_cons.
    destruct (decide (py_name pytile = name)) as [->|Hne].
    + split; eauto.
    + rewrite IH. split; [tauto|]. intros [Heq|Hin]; congruence.
Qed.

(** The names the map knows after the loop are the names of the tiles,
    whatever the ids. *)
Lemma tiles_loop_dom pytiles id tiles_id tiles built name :
  tiles_loop pytiles id tiles_id tiles = Returned built ->
  is_Some (built.1 !! name) <->
  is_Some (tiles_id !! name) \/ name ∈ map py_name pytiles.
Proof.
  revert id tiles_id tiles.
  induction pytiles as [|pytile rest IH]; intros id tiles_id tiles.
  - cbn. intros [= <-]. cbn. rewrite elem_of_nil. tauto.
  - cbn [tiles_loop map].
    destruct (pytile_to_tile pytile) as [tile|e|]; try discriminate.
    intros Hloop. apply IH in Hloop. rewrite Hloop.
    rewrite tiles_id_insert_lookup, elem_of_cons.
    destruct (tiles_id !! name) as [id'|].
    + split; eauto.
    + destruct (decide (py_name pytile = name)) as [->|Hne].
      * split; eauto.
      * split.
        -- intros [[? [=]]|Hin]; eauto.
        -- intros [[? [=]]|[Heq|Hin]]; [congruence|eauto].
Qed.
End TilesFacts.

Section NeighborsFacts.
Context {E : WfcEngine}.
Variable pytiles : list (PyTile Color double).
Variable tiles_id : gmap string Z.

Lemma neighbors_loop_rules neighbors neighbors_ids :
  (forall name, tiles_id !! name = tile_id_from 0 pytiles name) ->
  Forall valid_orientations neighbors ->
  neighbors_loop tiles_id neighbors neighbors_ids =
  neighbors_ids ++
  map (rule_of pytiles) (filter (known_names pytiles) neighbors).
Proof.
  intros Hids Hor. revert neighbors_ids.
  induction Hor as [|neighbor rest [Hl Hr] Hor IH]; intros neighbors_ids.
  - cbn. now rewrite app_nil_r.
  - cbn [neighbors_loop]. rewrite !Hids.
    destruct (tile_id_from 0 pytiles (nb_left neighbor)) as [id1|] eqn:H1.
    + destruct (tile_id_from 0 pytiles (nb_right neighbor)) as [id2|] eqn:H2.
      * rewrite filter_cons_True.
        -- rewrite IH, <- app_assoc. cbn [map app]. unfold rule_of.
           rewrite H1, H2, !to_unsigned_id by lia. reflexivity.
        -- split; apply (tile_id_from_is_Some 0); eauto.
      * rewrite filter_cons_False; [apply IH|].
        intros [_ Hin]. apply (tile_id_from_is_Some 0) in Hin.
        rewrite H2 in Hin. now destruct Hin.
    + rewrite filter_cons_False; [apply IH|].
      intros [Hin _]. apply (tile_id_from_is_Some 0) in Hin.
      rewrite H1 in Hin. now destruct Hin.
Qed.

Lemma neighbors_loop_filter neighbors neighbors_ids :
  (forall name,
     is_Some (tiles_id !! name) <-> name ∈ map py_name pytiles) ->
  neighbors_loop tiles_id (filter (known_names pytiles) neighbors)
    neighbors_ids =
  neighbors_loop tiles_id neighbors neighbors_ids.
Proof.
  intros Hdom. revert neighbors_ids.
  induction neighbors as [|neighbor rest IH]; intros neighbors_ids.
  - reflexivity.
  - cbn [neighbors_loop].
    destruct (decide (known_names pytiles neighbor)) as [Hk|Hk].
    + rewrite filter_cons_True by assumption. cbn [neighbors_loop].
      destruct (tiles_id !! nb_left neighbor); [|apply IH].
      destruct (tiles_id !! nb_right neighbor); apply IH.
    + rewrite filter_cons_False by assumption.
      destruct (tiles_id !! nb_left neighbor) as [id1|] eqn:H1;
        [|apply IH].
      destruct (tiles_id !! nb_right neighbor) as [id2|] eqn:H2;
        [|apply IH].
      exfalso. apply Hk. split; apply Hdom; eauto.
Qed.
End NeighborsFacts.

(** ** The tries of each sample of a call *)

Section PerSample.
Context {E : WfcEngine}.
Variable run : Z -> Array2D Color.
Variable bound : Z.

Lemma tries_of_sample_cases n seed i :
  tries_of_sample i (samples_from run bound n 0 seed) =
  if decide (0 <= i < Z.of_nat n) then
    tries_from run (Z.to_nat bound) i 0
      (entry_seed run bound (Z.to_nat i) 0 seed)
  else [].
Proof.
  destruct (decide (0 <= i < Z.of_nat n)) as [Hi|Hi].
  - replace i with (0 + Z.of_nat (Z.to_nat i)) at 1 2 by lia.
    apply samples_from_block. lia.
  - apply samples_from_outside. lia.
Qed.

Lemma sample_tries_bounded n seed i :
  (length (tries_of_sample i (samples_from run bound n 0 seed))
   <= Z.to_nat bound)%nat.
Proof.
  rewrite tries_of_sample_cases. destruct (decide _).
  - apply tries_from_length.
  - cbn. lia.
Qed.

Lemma sample_tries_stop n seed i l1 t l2 :
  tries_of_sample i (samples_from run bound n 0 seed) = l1 ++ t :: l2 ->
  try_succeeded t = true -> l2 = [].
Proof.
  rewrite tries_of_sample_cases. destruct (decide _).
  - apply tries_from_stops.
  - intros H. now destruct l1.
Qed.

(** The first try of the first sample runs at the seed given. *)
Lemma first_try_exists n seed :
  (0 < n)%nat -> 0 < bound ->
  starts_at seed (samples_from run bound n 0 seed).
Proof.
  intros Hn Hbound. unfold starts_at. rewrite tries_of_sample_cases.
  destruct (decide _); [|lia].
  destruct (Z.to_nat bound) as [|b] eqn:Hb; [lia|].
  eexists. split; reflexivity.
Qed.

(** A try that is followed by another try of the same sample failed,
    and the next try runs a new instance at the incremented seed. *)
Lemma next_try_seed n seed i k t1 t2 :
  tries_of_sample i (samples_from run bound n 0 seed) !! k = Some t1 ->
  tries_of_sample i (samples_from run bound n 0 seed) !! S k = Some t2 ->
  try_succeeded t1 = false /\
  try_seed t2 = increment_seed (try_seed t1) /\
  try_result t2 = run (try_seed t2).
Proof.
  intros H1 H2. split.
  - destruct (try_succeeded t1) eqn:Hs; [|reflexivity]. exfalso.
    pose proof (take_drop_middle _ _ _ H1) as Heq. symmetry in Heq.
    pose proof (sample_tries_stop _ _ _ _ _ _ Heq Hs) as Hnil.
    apply lookup_lt_Some in H2. apply (f_equal length) in Hnil.
    rewrite length_drop in Hnil. cbn in Hnil. lia.
  - revert H1 H2. rewrite tries_of_sample_cases.
    destruct (decide _); [|discriminate].
    intros H1 H2.
    apply tries_from_lookup in H1 as (_ & -> & _); [|lia].
    apply tries_from_lookup in H2 as (_ & Hseed & Hres); [|lia].
    split; [|exact Hres]. rewrite Hseed. apply Nat.iter_succ.
Qed.

(** The first try of sample [i + 1] runs at the seed of the last try of
    sample [i]; that is the seed sample [i] started from exactly when
    sample [i] made a single try. *)
Lemma seed_carried n seed i :
  0 <= i -> i + 1 < Z.of_nat n -> 0 < bound ->
  let rs := samples_from run bound n 0 seed in
  exists first_i last_i first_next,
    head (tries_of_sample i rs) = Some first_i /\
    last (tries_of_sample i rs) = Some last_i /\
    head (tries_of_sample (i + 1) rs) = Some first_next /\
    try_seed first_next = try_seed last_i /\
    (is_unsigned seed -> bound <= UINT_MAX ->
     (try_seed first_next = try_seed first_i <->
      length (tries_of_sample i rs) = 1%nat)).
Proof.
  intros Hi Hn Hbound rs. subst rs.
  rewrite !tries_of_sample_cases.
  destruct (decide (0 <= i < Z.of_nat n)) as [_|]; [|lia].
  destruct (decide (0 <= i + 1 < Z.of_nat n)) as [_|]; [|lia].
  replace (Z.to_nat (i + 1)) with (S (Z.to_nat i)) by lia.
  rewrite entry_seed_succ.
  replace (0 + Z.of_nat (Z.to_nat i)) with i by lia.
  set (s := entry_seed run bound (Z.to_nat i) 0 seed).
  set (rs := tries_from run (Z.to_nat bound) i 0 s).
  assert (Hlen : (length rs <= Z.to_nat bound)%nat)
    by apply tries_from_length.
  assert (Hne : rs <> []) by (apply tries_from_nonempty; lia).
  destruct (head rs) as [first_i|] eqn:Hfirst;
    [|now apply head_None in Hfirst].
  destruct (last rs) as [last_i|] eqn:Hlast;
    [|now apply last_None in Hlast].
  pose proof (head_tries_from run _ _ _ _ Hfirst) as Hfirst_seed.
  assert (Hafter : seed_after rs s = try_seed last_i)
    by (unfold seed_after; now rewrite Hlast).
  rewrite Hafter.
  destruct (head (tries_from run (Z.to_nat bound) (i + 1) 0
                    (try_seed last_i))) as [first_next|] eqn:Hnext.
  2:{ apply head_None in Hnext.
      apply tries_from_nonempty in Hnext; [contradiction|lia]. }
  apply head_tries_from in Hnext.
  exists first_i, last_i, first_next.
  repeat split; try assumption.
  - intros Heq.
    rewrite last_lookup in Hlast.
    apply tries_from_lookup in Hlast as (_ & Hseed & _); [|lia].
    cbn in Hseed.
    destruct (length rs) as [|[|k]] eqn:Hk; [|reflexivity|].
    + now apply length_zero_iff_nil in Hk.
    + exfalso. cbn [Init.Nat.pred] in Hseed.
      apply (iter_increment_seed_neq (S k) s).
      * now apply entry_seed_range.
      * lia.
      * unfold UINT_MAX in *. lia.
      * congruence.
  - intros Hone.
    rewrite last_lookup, Hone in Hlast. cbn in Hlast.
    rewrite <- head_lookup in Hlast. congruence.
Qed.
End PerSample.

(** ** The front-ends and the dispatcher, unfolded *)

Section Calls.
Context {E : WfcEngine}.
Variables (seed width height : Z) (periodic_output : bool) (N : Z).
Variables (periodic_input ground : bool) (nb_samples symmetry : Z).
Variables (input_img : list Color) (input_width input_height : Z).
Variables (verbose : bool) (nb_tries : Z).
Variables (pytiles : list (PyTile Color double)) (neighbors : list Neighbor).

Abbreviation started := (if verbose then [Cout "Started!"] else []).

Abbreviation overlapping_run :=
  (OverlappingWFC_run
     (array2d_from_vector input_img input_width input_height)
     (mkOverlappingWFCOptions periodic_input periodic_output height width
        symmetry ground N)).

Abbreviation overlapping_call :=
  (read_overlapping_instance seed width height periodic_output N
     periodic_input ground nb_samples symmetry input_img input_width
     input_height verbose nb_tries).

Abbreviation tiled_call :=
  (read_simpletiled_instance seed width height nb_samples periodic_output
     verbose nb_tries pytiles neighbors).

Abbreviation locals0 := (mkLocals seed Array2D_0_0 []).

Lemma read_overlapping_instance_unfold :
  overlapping_call =
  if (input_width =? 0) && (input_height =? 0) then
    (Thrown (CString "Error while loading the map to sample from."),
     started)
  else
    let r := samples_loop overlapping_run verbose "Failed to generate!"
               nb_tries (Z.to_nat nb_samples) 0 locals0 in
    (Returned (l_results_vec r.1), started ++ r.2).
Proof.
  unfold read_overlapping_instance.
  destruct ((input_width =? 0) && (input_height =? 0)) eqn:Hguard;
    cbn [array2d_from_vector arr_width arr_height]; rewrite Hguard.
  - destruct verbose; reflexivity.
  - destruct (samples_loop _ _ _ _ _ _ _) as [st tr].
    destruct verbose; cbn; now rewrite app_nil_r.
Qed.

Lemma read_simpletiled_instance_unfold :
  tiled_call =
  match tiles_loop pytiles 0 ∅ [] with
  | Returned (tiles_id, tiles) =>
      let r := samples_loop
                 (TilingWFC_run tiles (neighbors_loop tiles_id neighbors [])
                    height width (mkTilingWFCOptions periodic_output))
                 verbose "Failed!" 10 (Z.to_nat nb_samples) 0 locals0 in
      (Returned (l_results_vec r.1), started ++ r.2)
  | _ => (Terminated, started)
  end.
Proof.
  unfold read_simpletiled_instance.
  destruct (tiles_loop pytiles 0 ∅ []) as [[tiles_id tiles]|e|].
  - destruct verbose; cbn;
      destruct (samples_loop _ _ _ _ _ _ _) as [st tr];
      cbn; now rewrite app_nil_r.
  - destruct verbose; reflexivity.
  - destruct verbose; reflexivity.
Qed.

Lemma run_wfc_cpp_unfold clock sample_type :
  run_wfc_cpp clock seed width height sample_type periodic_output N
    periodic_input ground nb_samples symmetry input_img input_width
    input_height verbose nb_tries pytiles neighbors =
  let call :=
    if sample_type =? 0 then tiled_call
    else if sample_type =? 1 then overlapping_call
    else (Thrown (CString
            "choose 0 (simpletiled) or 1 (overlapping) on sample_type"), [])
  in
  match call.1 with
  | Returned v =>
      (Returned v,
       call.2 ++ (if verbose then [Cout (timing_line clock)] else []))
  | _ => call
  end.
Proof.
  unfold run_wfc_cpp. cbv zeta.
  fold (timing_line clock).
  destruct (if sample_type =? 0 then _ else _) as [[v|e|] tr];
    cbn; try reflexivity.
  destruct verbose; cbn; now rewrite ?app_nil_r.
Qed.

Lemma engine_runs_started (tr : list (Event Color)) :
  engine_runs (started ++ tr) = engine_runs tr.
Proof. now destruct verbose. Qed.

Lemma warnings_started (tr : list (Event Color)) :
  warnings (started ++ tr) = warnings tr.
Proof. now destruct verbose. Qed.

Lemma has_size_0_0 : has_size (@Array2D_0_0 Color) = false.
Proof. reflexivity. Qed.

(** What a returning call of a front-end whose sample loop runs [run]
    with bound [bound] leaves. *)
Lemma front_end_spec run fail_line bound :
  fail_line <> warning_line ->
  let r := samples_loop run verbose fail_line bound
             (Z.to_nat nb_samples) 0 locals0 in
  let rs := samples_from run bound (Z.to_nat nb_samples) 0 seed in
  engine_runs (started ++ r.2) = rs /\
  l_results_vec r.1 = pixels_of rs /\
  length (warnings (started ++ r.2)) =
    length (filter (fun j => sample_output j rs = None)
              (samples nb_samples)).
Proof.
  intros Hline. cbv zeta.
  pose proof (samples_loop_spec run verbose fail_line bound Hline
                (Z.to_nat nb_samples) 0 locals0 (fun _ => has_size_0_0))
    as (H1 & H2 & H3).
  rewrite engine_runs_started, warnings_started.
  split; [exact H1|]. split; [exact H2|].
  rewrite H3. unfold samples, seqZ. now rewrite Nat2Z.id.
Qed.

Lemma overlapping_returns :
  (input_width =? 0) && (input_height =? 0) = false ->
  let rs := samples_from overlapping_run nb_tries (Z.to_nat nb_samples)
              0 seed in
  overlapping_call.1 = Returned (pixels_of rs) /\
  engine_runs overlapping_call.2 = rs /\
  length (warnings overlapping_call.2) =
    length (filter (fun j => sample_output j rs = None)
              (samples nb_samples)).
Proof.
  intros Hguard. rewrite read_overlapping_instance_unfold, Hguard.
  cbv zeta. cbn [fst snd].
  pose proof (front_end_spec overlapping_run "Failed to generate!" nb_tries)
    as (H1 & H2 & H3); [discriminate|].
  rewrite H1, H2, H3. repeat split.
Qed.

Lemma overlapping_throws :
  (input_width =? 0) && (input_height =? 0) = true ->
  overlapping_call =
  (Thrown (CString "Error while loading the map to sample from."), started).
Proof.
  intros Hguard. now rewrite read_overlapping_instance_unfold, Hguard.
Qed.

Lemma tiled_returns tiles_id tiles :
  tiles_loop pytiles 0 ∅ [] = Returned (tiles_id, tiles) ->
  let rs := samples_from
              (TilingWFC_run tiles (neighbors_loop tiles_id neighbors [])
                 height width (mkTilingWFCOptions periodic_output))
              10 (Z.to_nat nb_samples) 0 seed in
  tiled_call.1 = Returned (pixels_of rs) /\
  engine_runs tiled_call.2 = rs /\
  length (warnings tiled_call.2) =
    length (filter (fun j => sample_output j rs = None)
              (samples nb_samples)).
Proof.
  intros Htiles. rewrite read_simpletiled_instance_unfold, Htiles.
  cbv zeta. cbn [fst snd].
  pose proof (front_end_spec
                (TilingWFC_run tiles (neighbors_loop tiles_id neighbors [])
                   height width (mkTilingWFCOptions periodic_output))
                "Failed!" 10)
    as (H1 & H2 & H3); [discriminate|].
  rewrite H1, H2, H3. repeat split.
Qed.

Lemma tiled_terminates :
  (forall built, tiles_loop pytiles 0 ∅ [] <> Returned built) ->
  tiled_call = (Terminated, started).
Proof.
  intros Htiles. rewrite read_simpletiled_instance_unfold.
  destruct (tiles_loop pytiles 0 ∅ []) as [[tiles_id tiles]|e|];
    [|reflexivity|reflexivity].
  now destruct (Htiles (tiles_id, tiles)).
Qed.

Lemma tiled_runs :
  exists run n,
    engine_runs tiled_call.2 = samples_from run 10 n 0 seed /\
    (returned tiled_call -> n = Z.to_nat nb_samples).
Proof.
  destruct (tiles_loop pytiles 0 ∅ []) as [[tiles_id tiles]|e|] eqn:Htiles.
  - destruct (tiled_returns _ _ Htiles) as (_ & H & _). eauto.
  - exists (fun _ => Array2D_0_0), O.
    rewrite tiled_terminates by (intros built; congruence).
    split; [now destruct verbose|]. intros [].
  - exists (fun _ => Array2D_0_0), O.
    rewrite tiled_terminates by (intros built; congruence).
    split; [now destruct verbose|]. intros [].
Qed.

Lemma overlapping_runs :
  exists n,
    engine_runs overlapping_call.2 =
      samples_from overlapping_run nb_tries n 0 seed /\
    (returned overlapping_call -> n = Z.to_nat nb_samples).
Proof.
  destruct ((input_width =? 0) && (input_height =? 0)) eqn:Hguard.
  - exists O. rewrite overlapping_throws by assumption.
    split; [now destruct verbose|]. intros [].
  - destruct (overlapping_returns Hguard) as (_ & H & _). eauto.
Qed.

Lemma pixels_of_samples run bound :
  let rs := samples_from run bound (Z.to_nat nb_samples) 0 seed in
  pixels_of rs =
  concat (omap (fun i => sample_output i rs) (samples nb_samples)).
Proof.
  cbv zeta. rewrite pixels_of_samples_from.
  unfold samples, seqZ. now rewrite Nat2Z.id.
Qed.

(** ** The claims *)

(** C1. Determinism of [run_wfc_cpp]: how the call ends, with the vector
    it returns, and the engine runs it makes are the same whatever the
    clock reads; with engines that are functions of their constructor
    arguments, nothing but the arguments decides the output vector. *)
Theorem run_wfc_cpp_deterministic clock1 clock2 sample_type :
  (run_wfc_cpp clock1 seed width height sample_type periodic_output N
     periodic_input ground nb_samples symmetry input_img input_width
     input_height verbose nb_tries pytiles neighbors).1 =
  (run_wfc_cpp clock2 seed width height sample_type periodic_output N
     periodic_input ground nb_samples symmetry input_img input_width
     input_height verbose nb_tries pytiles neighbors).1 /\
  engine_runs
    (run_wfc_cpp clock1 seed width height sample_type periodic_output N
       periodic_input ground nb_samples symmetry input_img input_width
       input_height verbose nb_tries pytiles neighbors).2 =
  engine_runs
    (run_wfc_cpp clock2 seed width height sample_type periodic_output N
       periodic_input ground nb_samples symmetry input_img input_width
       input_height verbose nb_tries pytiles neighbors).2.
Proof.
  rewrite !run_wfc_cpp_unfold. cbv zeta.
  destruct (if sample_type =? 0 then _ else _) as [[v|e|] tr];
    cbn [fst snd]; split; try reflexivity.
  rewrite !engine_runs_app. f_equal. now destruct verbose.
Qed.

(** C3. The tiled front-end makes at most 10 tries per sample, whatever
    [nb_tries] is (which it does not use at all); the overlapping
    front-end makes at most [nb_tries] tries per sample; in both, no try
    of a sample follows a successful one. *)
Theorem retry_bounds i :
  (length (tries_of_sample i (engine_runs tiled_call.2)) <= 10)%nat /\
  (length (tries_of_sample i (engine_runs overlapping_call.2))
   <= Z.to_nat nb_tries)%nat /\
  (forall l1 t l2,
     tries_of_sample i (engine_runs tiled_call.2) = l1 ++ t :: l2 ->
     try_succeeded t = true -> l2 = []) /\
  (forall l1 t l2,
     tries_of_sample i (engine_runs overlapping_call.2) = l1 ++ t :: l2 ->
     try_succeeded t = true -> l2 = []) /\
  (forall nb_tries',
     read_simpletiled_instance seed width height nb_samples periodic_output
       verbose nb_tries' pytiles neighbors = tiled_call).
Proof.
  destruct tiled_runs as (run & n & -> & _).
  destruct overlapping_runs as (n' & -> & _).
  split; [apply (sample_tries_bounded run 10)|].
  split; [apply sample_tries_bounded|].
  split; [apply sample_tries_stop|].
  split; [apply sample_tries_stop|].
  reflexivity.
Qed.

(** C4. A front-end that returns, returns the pixel data of the samples
    that have a successful try, concatenated in the order of the
    samples; a sample without a successful try adds nothing, and the
    warnings written to [std::cout] are as many as these samples. *)
Theorem samples_concatenated :
  (returned overlapping_call ->
   overlapping_call.1 =
     Returned
       (concat (omap (fun i =>
                        sample_output i (engine_runs overlapping_call.2))
                  (samples nb_samples))) /\
   length (warnings overlapping_call.2) =
     length (filter (fun i =>
                       sample_output i (engine_runs overlapping_call.2)
                       = None)
               (samples nb_samples))) /\
  (returned tiled_call ->
   tiled_call.1 =
     Returned
       (concat (omap (fun i => sample_output i (engine_runs tiled_call.2))
                  (samples nb_samples))) /\
   length (warnings tiled_call.2) =
     length (filter (fun i =>
                       sample_output i (engine_runs tiled_call.2) = None)
               (samples nb_samples))).
Proof.
  split.
  - destruct ((input_width =? 0) && (input_height =? 0)) eqn:Hguard.
    + rewrite overlapping_throws by assumption. intros [].
    + intros _. destruct (overlapping_returns Hguard) as (H1 & H2 & H3).
      rewrite H1, H2, H3. split; [|reflexivity].
      f_equal. apply pixels_of_samples.
  - destruct (tiles_loop pytiles 0 ∅ []) as [[tiles_id tiles]|e|] eqn:Htiles.
    + intros _. destruct (tiled_returns _ _ Htiles) as (H1 & H2 & H3).
      rewrite H1, H2, H3. split; [|reflexivity].
      f_equal. apply pixels_of_samples.
    + rewrite tiled_terminates by (intros built; congruence). intros [].
    + rewrite tiled_terminates by (intros built; congruence). intros [].
Qed.

(** C5. [run_wfc_cpp] dispatches on [sample_type]: 0 is a call of the
    tiled front-end and 1 a call of the overlapping front-end (same
    outcome, same trace, followed at most by the timing line); any other
    value throws the usage message, nothing having been printed and no
    engine having run. *)
Theorem run_wfc_cpp_dispatch clock sample_type :
  let call :=
    run_wfc_cpp clock seed width height sample_type periodic_output N
      periodic_input ground nb_samples symmetry input_img input_width
      input_height verbose nb_tries pytiles neighbors in
  (sample_type = 0 ->
   call.1 = tiled_call.1 /\
   exists timing,
     call.2 = tiled_call.2 ++ timing /\ engine_runs timing = []) /\
  (sample_type = 1 ->
   call.1 = overlapping_call.1 /\
   exists timing,
     call.2 = overlapping_call.2 ++ timing /\ engine_runs timing = []) /\
  (sample_type <> 0 -> sample_type <> 1 ->
   call =
   (Thrown (CString
      "choose 0 (simpletiled) or 1 (overlapping) on sample_type"), [])).
Proof.
  cbv zeta. rewrite run_wfc_cpp_unfold. cbv zeta.
  split; [|split].
  - intros ->. cbn [Z.eqb].
    destruct tiled_call as [[v|e|] tr]; cbn [fst snd].
    + split; [reflexivity|]. eexists. split; [reflexivity|].
      now destruct verbose.
    + split; [reflexivity|]. exists []. now rewrite app_nil_r.
    + split; [reflexivity|]. exists []. now rewrite app_nil_r.
  - intros ->. cbn [Z.eqb Pos.eqb].
    destruct overlapping_call as [[v|e|] tr]; cbn [fst snd].
    + split; [reflexivity|]. eexists. split; [reflexivity|].
      now destruct verbose.
    + split; [reflexivity|]. exists []. now rewrite app_nil_r.
    + split; [reflexivity|]. exists []. now rewrite app_nil_r.
  - intros H0 H1.
    destruct (Z.eqb_spec sample_type 0); [contradiction|].
    destruct (Z.eqb_spec sample_type 1); [contradiction|].
    reflexivity.
Qed.

(** C8, as the guard of line 72 has it.  In overlapping mode an input
    image whose width and height are both zero makes the call throw
    before any sample is attempted; the exception leaves [run_wfc_cpp]
    too. *)
Theorem empty_exemplar_throws clock :
  input_width = 0 -> input_height = 0 ->
  overlapping_call =
    (Thrown (CString "Error while loading the map to sample from."),
     started) /\
  run_wfc_cpp clock seed width height 1 periodic_output N periodic_input
    ground nb_samples symmetry input_img input_width input_height verbose
    nb_tries pytiles neighbors =
    (Thrown (CString "Error while loading the map to sample from."),
     started) /\
  engine_runs overlapping_call.2 = [].
Proof.
  intros Hw Hh.
  assert (Hguard : (input_width =? 0) && (input_height =? 0) = true)
    by (subst; reflexivity).
  rewrite run_wfc_cpp_unfold. cbv zeta. cbn [Z.eqb Pos.eqb].
  rewrite (overlapping_throws Hguard). cbn [fst snd].
  repeat split. now destruct verbose.
Qed.

(** C9, with the single-try case spelled out.  The seed is not reset
    between samples: when the call returns, sample 0 starts at the seed
    given and the first try of sample [i + 1] runs at the seed of the
    last try of sample [i]; it is the seed sample [i] started from
    exactly when sample [i] made a single try. *)
Theorem seed_carried_over i :
  is_unsigned seed -> is_unsigned nb_tries ->
  0 <= i -> i + 1 < nb_samples ->
  (returned tiled_call ->
   starts_at seed (engine_runs tiled_call.2) /\
   carries_seed i (engine_runs tiled_call.2)) /\
  (0 < nb_tries -> returned overlapping_call ->
   starts_at seed (engine_runs overlapping_call.2) /\
   carries_seed i (engine_runs overlapping_call.2)).
Proof.
  intros Hseed Htries Hi Hnext. split.
  - intros Hret. destruct tiled_runs as (run & n & -> & Hn).
    rewrite (Hn Hret). split; [apply first_try_exists; lia|].
    destruct (seed_carried run 10 (Z.to_nat nb_samples) seed i)
      as (t1 & t2 & t3 & H1 & H2 & H3 & H4 & H5); try lia.
    exists t1, t2, t3. repeat split; try assumption; apply H5;
      try assumption; unfold UINT_MAX; lia.
  - intros Hpos Hret. destruct overlapping_runs as (n & -> & Hn).
    rewrite (Hn Hret). split; [apply first_try_exists; lia|].
    destruct (seed_carried overlapping_run nb_tries (Z.to_nat nb_samples)
                seed i)
      as (t1 & t2 & t3 & H1 & H2 & H3 & H4 & H5); try lia.
    exists t1, t2, t3. repeat split; try assumption; apply H5;
      try assumption; apply Htries.
Qed.

(** C10. In overlapping mode an input image with exactly one dimension
    equal to zero does not throw: the call returns, and when there is a
    sample to make and a try to make for it, the engine is run on that
    image with the seed given. *)
Theorem one_zero_dimension_is_sampled :
  (input_width = 0 /\ input_height <> 0) \/
  (input_width <> 0 /\ input_height = 0) ->
  returned overlapping_call /\
  (0 < nb_samples -> 0 < nb_tries ->
   head (engine_runs overlapping_call.2) =
     Some (mkTry 0 0 seed
             (OverlappingWFC_run
                (mkArray2D input_height input_width input_img)
                (mkOverlappingWFCOptions periodic_input periodic_output
                   height width symmetry ground N)
                seed))).
Proof.
  intros Hdims.
  assert (Hguard : (input_width =? 0) && (input_height =? 0) = false).
  { apply andb_false_iff. rewrite !Z.eqb_neq. tauto. }
  destruct (overlapping_returns Hguard) as (H1 & H2 & _).
  split; [unfold returned; now rewrite H1|].
  intros Hs Ht. rewrite H2.
  destruct (Z.to_nat nb_samples) as [|n] eqn:Hn; [lia|].
  cbn [samples_from].
  destruct (Z.to_nat nb_tries) as [|b] eqn:Hb; [lia|].
  reflexivity.
Qed.
End Calls.

(** C6. In tiled mode the rules handed to the engine are the neighbor
    entries both of whose names are names of tiles, in their order, each
    with the ids of its two tiles and its two orientations; an entry with
    an unknown name adds no rule and raises no error: the call is the call
    made without these entries. *)
Theorem unknown_neighbors_dropped {E : WfcEngine}
    (seed width height nb_samples : Z) (periodic_output verbose : bool)
    (nb_tries : Z) (pytiles : list (PyTile Color double))
    (neighbors : list Neighbor) tiles_id tiles :
  Z.of_nat (length pytiles) <= 2 ^ 32 ->
  Forall valid_orientations neighbors ->
  tiles_loop pytiles 0 ∅ [] = Returned (tiles_id, tiles) ->
  neighbors_loop tiles_id neighbors [] =
    map (rule_of pytiles) (filter (known_names pytiles) neighbors) /\
  read_simpletiled_instance seed width height nb_samples periodic_output
    verbose nb_tries pytiles neighbors =
  read_simpletiled_instance seed width height nb_samples periodic_output
    verbose nb_tries pytiles (filter (known_names pytiles) neighbors).
Proof.
  intros Hlen Hor Htiles. split.
  - rewrite (neighbors_loop_rules pytiles); [reflexivity| |assumption].
    intros name.
    pose proof (tiles_loop_lookup pytiles 0 ∅ [] (tiles_id, tiles) name)
      as Hlookup.
    cbn [fst] in Hlookup. rewrite Hlookup by (assumption || lia).
    now rewrite lookup_empty.
  - rewrite !read_simpletiled_instance_unfold, Htiles.
    rewrite (neighbors_loop_filter pytiles); [reflexivity|].
    intros name.
    pose proof (tiles_loop_dom pytiles 0 ∅ [] (tiles_id, tiles) name Htiles)
      as Hdom.
    cbn [fst] in Hdom. rewrite Hdom, lookup_empty.
    split; [intros [[? [=]]|H]; exact H|eauto].
Qed.

(** A tile with an unknown symmetry name ends the tiled front-end, and
    with it the process, in [std::terminate]: [read_simpletiled_instance]
    is declared [noexcept] and the exception of [to_symmetry] cannot leave
    it. *)
Lemma invalid_symmetry_terminates_call {E : WfcEngine}
    (seed width height nb_samples : Z) (periodic_output verbose : bool)
    (nb_tries : Z) (pytiles : list (PyTile Color double))
    (neighbors : list Neighbor) :
  Exists (fun pytile => py_symmetry pytile ∉ symmetry_names) pytiles ->
  read_simpletiled_instance seed width height nb_samples periodic_output
    verbose nb_tries pytiles neighbors =
  (Terminated, if verbose then [Cout "Started!"] else []).
Proof.
  intros Hex. apply tiled_terminates. intros built.
  destruct (tiles_loop_invalid pytiles 0 ∅ [] Hex) as [e ->]. discriminate.
Qed.

(** ** The claims on concrete calls *)

Module Evaluated.
Import Examples.

(** The clock reaches the timing line, and nothing else: two verbose
    calls that differ in the clock only differ in their last line. *)
Example clock_reaches_the_timing_line :
  let call clock :=
    run_wfc_cpp (E := mod3_engine) clock 1 4 4 1 false 2 false false 1 1
      [5] 1 1 true 3 [tile_A] rules in
  (call clock_a).1 = Returned [3] /\
  (call clock_b).1 = Returned [3] /\
  last (stdout (call clock_a).2) = Some "All samples done in 2s, 500ms." /\
  last (stdout (call clock_b).2) = Some "All samples done in 0s, 0ms.".
Proof. repeat split; vm_compute; reflexivity. Qed.

(** C2. At seed [UINT_MAX - 1] = 4294967294 the next seed is 0 and not
    4294967295 = (4294967294 + 1) mod 2^32: a try failed at that seed is
    followed by a try at seed 0. *)
Theorem increment_seed_skips_uint_max :
  increment_seed 4294967294 = 0 /\
  (4294967294 + 1) mod 2 ^ 32 = 4294967295 /\
  map try_seed
    (engine_runs
       (read_overlapping_instance (E := mod3_engine) 4294967294 4 4 false 2
          false false 1 1 [5] 1 1 false 2).2) = [4294967294; 0].
Proof. repeat split; vm_compute; reflexivity. Qed.

(** C7. A tile whose symmetry name is "Z" makes [to_symmetry] throw its
    message, but the call of the tiled front-end, and the call of
    [run_wfc_cpp] around it, end in [std::terminate]: no exception
    reaches the caller. *)
Theorem invalid_symmetry_terminates :
  to_symmetry "Z" = Thrown (StdString "Zis an invalid Symmetry") /\
  read_simpletiled_instance (E := mod3_engine) 1 4 4 1 false false 10
    [tile_A; tile_bad] rules = (Terminated, []) /\
  run_wfc_cpp (E := mod3_engine) clock_a 1 4 4 0 false 2 false false 1 1
    [5] 1 1 false 10 [tile_A; tile_bad] rules = (Terminated, []).
Proof. repeat split; vm_compute; reflexivity. Qed.

(** C8 as stated fails: an exemplar of width 0 and height 5 has no
    pixels, and the overlapping front-end runs the engine on it and
    returns. *)
Lemma zero_width_exemplar_is_sampled :
  arr_data (array2d_from_vector ([] : list Z) 0 5) = [] /\
  arr_width (array2d_from_vector ([] : list Z) 0 5) *
  arr_height (array2d_from_vector ([] : list Z) 0 5) = 0 /\
  read_overlapping_instance (E := mod3_engine) 3 4 4 false 2 false false
    1 1 [] 0 5 false 1 =
  (Returned [3], [EngineRun (mkTry 0 0 3 (mkArray2D 1 1 [3]))]).
Proof. repeat split; vm_compute; reflexivity. Qed.

(** C9 as stated fails in its last part: with [nb_tries = 1] the only
    try of sample 0 fails, and the first try of sample 1 runs at the
    input seed 42 all the same. *)
Lemma failed_single_try_reuses_seed :
  let rs :=
    engine_runs
      (read_overlapping_instance (E := failing_engine) 42 4 4 false 2 false
         false 2 1 [7] 1 1 false 1).2 in
  tries_of_sample 0 rs = [mkTry 0 0 42 Array2D_0_0] /\
  try_succeeded (mkTry 0 0 42 (@Array2D_0_0 Z)) = false /\
  head (tries_of_sample 1 rs) = Some (mkTry 1 0 42 Array2D_0_0).
Proof. repeat split; vm_compute; reflexivity. Qed.

End Evaluated.

(** ** The claims with hypotheses, at concrete calls *)

Module Witnesses.
Import Examples.

Abbreviation overlapping_example :=
  (read_overlapping_instance (E := mod3_engine) 1 4 4 false 2 false false
     3 1 [5] 1 1 true 2).

Abbreviation tiled_example :=
  (read_simpletiled_instance (E := mod3_engine) 1 4 4 3 false true 2
     [tile_A; tile_B] rules).

Lemma samples_concatenated_witness :
  (overlapping_example.1 =
     Returned
       (concat (omap (fun i =>
                        sample_output i (engine_runs overlapping_example.2))
                  (samples 3))) /\
   length (warnings overlapping_example.2) =
     length (filter (fun i =>
                       sample_output i (engine_runs overlapping_example.2)
                       = None)
               (samples 3))) /\
  (tiled_example.1 =
     Returned
       (concat (omap (fun i => sample_output i (engine_runs tiled_example.2))
                  (samples 3))) /\
   length (warnings tiled_example.2) =
     length (filter (fun i =>
                       sample_output i (engine_runs tiled_example.2) = None)
               (samples 3))).
Proof.
  pose proof (samples_concatenated (E := mod3_engine) 1 4 4 false 2 false
                false 3 1 [5] 1 1 true 2 [tile_A; tile_B] rules)
    as [Hover Htiled].
  split; [apply Hover|apply Htiled]; exact I.
Defined.

Lemma run_wfc_cpp_dispatch_witness :
  (run_wfc_cpp (E := mod3_engine) clock_a 1 4 4 0 false 2 false false 3 1
     [5] 1 1 true 2 [tile_A; tile_B] rules).1 = tiled_example.1 /\
  (run_wfc_cpp (E := mod3_engine) clock_a 1 4 4 1 false 2 false false 3 1
     [5] 1 1 true 2 [tile_A; tile_B] rules).1 = overlapping_example.1 /\
  run_wfc_cpp (E := mod3_engine) clock_a 1 4 4 7 false 2 false false 3 1
    [5] 1 1 true 2 [tile_A; tile_B] rules =
  (Thrown (CString
     "choose 0 (simpletiled) or 1 (overlapping) on sample_type"), []).
Proof.
  split; [|split].
  - apply (run_wfc_cpp_dispatch (E := mod3_engine) 1 4 4 false 2 false
             false 3 1 [5] 1 1 true 2 [tile_A; tile_B] rules clock_a 0).
    reflexivity.
  - apply (run_wfc_cpp_dispatch (E := mod3_engine) 1 4 4 false 2 false
             false 3 1 [5] 1 1 true 2 [tile_A; tile_B] rules clock_a 1).
    reflexivity.
  - apply (run_wfc_cpp_dispatch (E := mod3_engine) 1 4 4 false 2 false
             false 3 1 [5] 1 1 true 2 [tile_A; tile_B] rules clock_a 7);
      lia.
Defined.

Lemma unknown_neighbors_dropped_witness :
  Z.of_nat (length [tile_A; tile_B]) <= 2 ^ 32 /\
  Forall valid_orientations rules /\
  neighbors_loop (<["B" := 1]> (<["A" := 0]> (∅ : gmap string Z))) rules []
  = map (rule_of [tile_A; tile_B])
      (filter (known_names [tile_A; tile_B]) rules) /\
  tiled_example =
  read_simpletiled_instance (E := mod3_engine) 1 4 4 3 false true 2
    [tile_A; tile_B] (filter (known_names [tile_A; tile_B]) rules).
Proof.
  assert (Hlen : Z.of_nat (length [tile_A; tile_B]) <= 2 ^ 32)
    by (simpl; lia).
  assert (Hor : Forall valid_orientations rules).
  { unfold rules, valid_orientations.
    repeat (apply Forall_cons_2; [simpl; lia|]). apply Forall_nil_2. }
  split; [exact Hlen|]. split; [exact Hor|].
  apply (unknown_neighbors_dropped (E := mod3_engine) 1 4 4 3 false true 2
           [tile_A; tile_B] rules
           (<["B" := 1]> (<["A" := 0]> (∅ : gmap string Z)))
           [mkTile (mkArray2D 1 1 [10]) Symmetry.X 1;
            mkTile (mkArray2D 1 1 [20]) Symmetry.L 1]
           Hlen Hor).
  reflexivity.
Defined.

Lemma empty_exemplar_throws_witness :
  read_overlapping_instance (E := mod3_engine) 1 4 4 false 2 false false
    3 1 [] 0 0 true 2 =
    (Thrown (CString "Error while loading the map to sample from."),
     [Cout "Started!"]) /\
  run_wfc_cpp (E := mod3_engine) clock_a 1 4 4 1 false 2 false false 3 1
    [] 0 0 true 2 [tile_A] rules =
    (Thrown (CString "Error while loading the map to sample from."),
     [Cout "Started!"]) /\
  engine_runs
    (read_overlapping_instance (E := mod3_engine) 1 4 4 false 2 false false
       3 1 [] 0 0 true 2).2 = [].
Proof.
  apply (empty_exemplar_throws (E := mod3_engine) 1 4 4 false 2 false false
           3 1 [] 0 0 true 2 [tile_A] rules clock_a); reflexivity.
Defined.

Lemma seed_carried_over_witness :
  is_unsigned 1 /\ is_unsigned 2 /\ 0 <= 0 /\ 0 + 1 < 3 /\
  (starts_at 1 (engine_runs tiled_example.2) /\
   carries_seed 0 (engine_runs tiled_example.2)) /\
  (starts_at 1 (engine_runs overlapping_example.2) /\
   carries_seed 0 (engine_runs overlapping_example.2)).
Proof.
  assert (Hseed : is_unsigned 1) by (unfold is_unsigned, UINT_MAX; lia).
  assert (Htries : is_unsigned 2) by (unfold is_unsigned, UINT_MAX; lia).
  assert (Hi : 0 <= 0) by lia.
  assert (Hnext : 0 + 1 < 3) by lia.
  pose proof (seed_carried_over (E := mod3_engine) 1 4 4 false 2 false
                false 3 1 [5] 1 1 true 2 [tile_A; tile_B] rules 0
                Hseed Htries Hi Hnext) as [Htiled Hover].
  repeat (split; [assumption|]).
  split; [apply Htiled; exact I|apply Hover; [lia|exact I]].
Defined.

Lemma one_zero_dimension_is_sampled_witness :
  returned
    (read_overlapping_instance (E := mod3_engine) 3 4 4 false 2 false false
       1 1 [] 0 5 false 1) /\
  head
    (engine_runs
       (read_overlapping_instance (E := mod3_engine) 3 4 4 false 2 false
          false 1 1 [] 0 5 false 1).2) =
  Some (mkTry 0 0 3 (mkArray2D 1 1 [3])).
Proof.
  pose proof (one_zero_dimension_is_sampled (E := mod3_engine) 3 4 4 false
                2 false false 1 1 [] 0 5 false 1) as H.
  destruct H as [Hret Hhead].
  - left. split; [reflexivity|lia].
  - split; [exact Hret|]. apply Hhead; lia.
Defined.

End Witnesses.

(** * More of the driver *)

(** ** The walk of the retry seeds *)

(** X1. From an [unsigned] seed, [increment_seed] gives an [unsigned] seed
    that is neither the seed it was given nor [UINT_MAX]: a retry never
    runs at the seed just tried, and never at 4294967295. *)
Theorem increment_seed_moves seed :
  is_unsigned seed ->
  is_unsigned (increment_seed seed) /\
  increment_seed seed <> seed /\
  increment_seed seed <> UINT_MAX.
Proof.
  intros Hs. split; [now apply increment_seed_range|].
  unfold is_unsigned in Hs.
  destruct (Z_lt_le_dec seed (UINT_MAX - 1)) as [Hlt|Hge].
  - rewrite increment_seed_below by lia. lia.
  - rewrite increment_seed_top by lia. unfold UINT_MAX in *. lia.
Qed.

(** X2. Below [UINT_MAX] the seeds form one cycle of length
    [UINT_MAX] = 2^32 - 1: among at most [UINT_MAX] increments, only none
    and [UINT_MAX] of them lead back to the seed they started from. *)
Theorem increment_seed_period seed k :
  0 <= seed < UINT_MAX -> Z.of_nat k <= UINT_MAX ->
  Nat.iter k increment_seed seed = seed <->
  k = O \/ Z.of_nat k = UINT_MAX.
Proof.
  intros Hs Hk. rewrite iter_increment_seed_cycle by assumption.
  destruct (Z.ltb_spec (seed + Z.of_nat k) UINT_MAX); lia.
Qed.

(** ** More on the tries of a call *)

Section MoreTries.
Context {E : WfcEngine}.
Variable run : Z -> Array2D Color.
Variable bound : Z.

Lemma samples_from_length n i seed :
  (length (samples_from run bound n i seed) <= n * Z.to_nat bound)%nat.
Proof.
  revert i seed. induction n as [|n IH]; intros i seed; cbn [samples_from].
  - cbn. lia.
  - rewrite length_app.
    pose proof (tries_from_length run (Z.to_nat bound) i 0 seed).
    specialize (IH (i + 1)
      (seed_after (tries_from run (Z.to_nat bound) i 0 seed) seed)). lia.
Qed.

(** The samples of a longer call are those of the shorter call, followed
    by the remaining ones from the seed the shorter call left. *)
Lemma samples_from_add a b i seed :
  samples_from run bound (a + b) i seed =
  samples_from run bound a i seed ++
  samples_from run bound b (i + Z.of_nat a) (entry_seed run bound a i seed).
Proof.
  revert i seed. induction a as [|a IH]; intros i seed.
  - cbn. now replace (i + Z.of_nat 0) with i by lia.
  - cbn [Nat.add samples_from entry_seed]. rewrite IH, <- app_assoc.
    now replace (i + 1 + Z.of_nat a) with (i + Z.of_nat (S a)) by lia.
Qed.

(** A sample whose first try succeeds makes that try alone. *)
Lemma tries_from_first_success n i seed :
  has_size (run seed) = true ->
  tries_from run (S n) i 0 seed = [mkTry i 0 seed (run seed)].
Proof. intros H. cbn. now rewrite H. Qed.

Lemma samples_from_first_success n i seed :
  0 < bound -> has_size (run seed) = true ->
  samples_from run bound n i seed =
  map (fun j => mkTry j 0 seed (run seed)) (seqZ i (Z.of_nat n)).
Proof.
  intros Hb Hs. revert i. induction n as [|n IH]; intros i; [reflexivity|].
  cbn [samples_from]. rewrite seqZ_succ.
  destruct (Z.to_nat bound) as [|b] eqn:Hbound; [lia|].
  rewrite tries_from_first_success by assumption.
  cbn [seed_after last try_seed app map]. now rewrite IH.
Qed.

(** When no seed succeeds, every sample uses all its tries. *)
Lemma tries_from_all_fail n i test seed :
  (forall s, has_size (run s) = false) ->
  length (tries_from run n i test seed) = n /\
  filter (fun t => try_succeeded t = true) (tries_from run n i test seed) = [].
Proof.
  intros Hfail. revert test seed.
  induction n as [|n IH]; intros test seed; [split; reflexivity|].
  cbn [tries_from]. rewrite Hfail.
  destruct (IH (test + 1) (if 0 <? test then increment_seed seed else seed))
    as [IH1 IH2].
  split; [cbn; now rewrite IH1|].
  rewrite filter_cons_False; [exact IH2|].
  unfold try_succeeded. cbn. rewrite Hfail. discriminate.
Qed.

Lemma samples_from_all_fail n i seed :
  (forall s, has_size (run s) = false) ->
  length (samples_from run bound n i seed) = (n * Z.to_nat bound)%nat /\
  filter (fun t => try_succeeded t = true) (samples_from run bound n i seed)
  = [].
Proof.
  intros Hfail. revert i seed.
  induction n as [|n IH]; intros i seed; [split; reflexivity|].
  cbn [samples_from]. rewrite length_app, filter_app.
  destruct (tries_from_all_fail (Z.to_nat bound) i 0 seed Hfail) as [-> ->].
  destruct (IH (i + 1)
    (seed_after (tries_from run (Z.to_nat bound) i 0 seed) seed)) as [-> ->].
  split; [lia|reflexivity].
Qed.

(** The seeds tried stay [unsigned]. *)
Lemma tries_from_seeds_range n i seed :
  is_unsigned seed ->
  Forall (fun t => is_unsigned (try_seed t)) (tries_from run n i 0 seed).
Proof.
  intros Hs. apply Forall_lookup. intros k t Ht.
  apply tries_from_lookup in Ht as (_ & -> & _); [|lia].
  now apply iter_increment_seed_range.
Qed.

Lemma samples_from_seeds_range n i seed :
  is_unsigned seed ->
  Forall (fun t => is_unsigned (try_seed t)) (samples_from run bound n i seed).
Proof.
  revert i seed. induction n as [|n IH]; intros i seed Hs; cbn [samples_from].
  - constructor.
  - apply Forall_app. split; [now apply tries_from_seeds_range|].
    apply IH. now apply seed_after_tries_range.
Qed.

(** The tries of one sample run at different seeds. *)
Lemma tries_from_seeds_NoDup n i seed :
  is_unsigned seed -> Z.of_nat n <= UINT_MAX ->
  NoDup (map try_seed (tries_from run n i 0 seed)).
Proof.
  intros Hs Hn. apply NoDup_alt. intros k1 k2 s H1 H2.
  rewrite list_lookup_fmap in H1, H2.
  destruct (tries_from run n i 0 seed !! k1) as [t1|] eqn:Ht1; [|discriminate].
  destruct (tries_from run n i 0 seed !! k2) as [t2|] eqn:Ht2; [|discriminate].
  cbn in H1, H2.
  assert (Heq : try_seed t1 = try_seed t2) by congruence.
  pose proof (lookup_lt_Some _ _ _ Ht1) as Hk1.
  pose proof (lookup_lt_Some _ _ _ Ht2) as Hk2.
  pose proof (tries_from_length run n i 0 seed) as Hlen.
  apply tries_from_lookup in Ht1 as (_ & Hseed1 & _); [|lia].
  apply tries_from_lookup in Ht2 as (_ & Hseed2 & _); [|lia].
  cbn in Hseed1, Hseed2. rewrite Hseed1, Hseed2 in Heq.
  assert (Hneq : forall a b, (a < b)%nat -> (b < n)%nat ->
            Nat.iter b increment_seed seed <> Nat.iter a increment_seed seed).
  { intros a b Hab Hb.
    replace b with ((b - a) + a)%nat by lia. rewrite Nat.iter_add.
    apply iter_increment_seed_neq; [now apply iter_increment_seed_range| |];
      lia. }
  destruct (Nat.lt_trichotomy k1 k2) as [Hlt|[Hsame|Hgt]]; [|assumption|].
  - exfalso. apply (Hneq k1 k2); [lia|lia|congruence].
  - exfalso. apply (Hneq k2 k1); [lia|lia|congruence].
Qed.
End MoreTries.

(** ** More on the loops of the driver *)

Lemma filter_eq_replicate (w : string) (l : list string) :
  filter (fun x => x = w) l =
  replicate (length (filter (fun x => x = w) l)) w.
Proof.
  induction l as [|x l IH]; [reflexivity|].
  destruct (decide (x = w)) as [->|Hne].
  - rewrite filter_cons_True by reflexivity. cbn. now rewrite <- IH.
  - now rewrite filter_cons_False by assumption.
Qed.

Lemma warnings_replicate {C : Type} (tr : list (Event C)) :
  warnings tr = replicate (length (warnings tr)) warning_line.
Proof. apply filter_eq_replicate. Qed.

Section MoreLoops.
Context {E : WfcEngine}.
Variable run : Z -> Array2D Color.
Variable fail_line : string.
Variable bound : Z.
Hypothesis fail_line_not_warning : fail_line <> warning_line.

(** Every sample leaves a successful try or a warning, never both. *)
Lemma samples_loop_warnings_count verbose n i st :
  (bound <= 0 -> has_size (l_result st) = false) ->
  (length (warnings (samples_loop run verbose fail_line bound n i st).2) +
   length (filter (fun t => try_succeeded t = true)
             (samples_from run bound n i (l_seed st))))%nat = n.
Proof.
  revert i st. induction n as [|n IH]; intros i st Hinv; [reflexivity|].
  cbn [samples_loop samples_from].
  pose proof (sample_body_spec run verbose fail_line bound
                fail_line_not_warning i st Hinv) as Hbody.
  destruct (sample_body _ _ _ _ _ _) as [st1 tr1].
  cbn -[engine_runs warnings pixels_of filter] in Hbody.
  destruct Hbody as (_ & B2 & _ & B4 & B5).
  specialize (IH (i + 1) st1 B5). rewrite B2 in IH.
  destruct (samples_loop _ _ _ _ _ _ _) as [st2 tr2].
  cbn [snd] in IH |- *.
  rewrite warnings_app, filter_app, !length_app, B4.
  pose proof (tries_from_succeeded run (Z.to_nat bound) i 0 (l_seed st))
    as Hsucc.
  cbv zeta in Hsucc. rewrite Hsucc.
  destruct (last _) as [t|]; [destruct (try_succeeded t)|]; cbn; lia.
Qed.

(** Without [verbose] the loops print nothing but warnings. *)
Lemma tries_loop_quiet n i test st finished :
  stdout (tries_loop run false fail_line n i test st finished).2 = [].
Proof.
  revert test st finished.
  induction n as [|n IH]; intros test st finished; [reflexivity|].
  cbn [tries_loop]. destruct finished; [reflexivity|].
  unfold try_body.
  destruct (has_size _);
    match goal with
    | |- context [tries_loop run false fail_line n i ?a ?b ?c] =>
        specialize (IH a b c);
        destruct (tries_loop run false fail_line n i a b c) as [[st2 f2] tr2]
    end;
    cbn [snd] in IH |- *; rewrite stdout_app, IH; reflexivity.
Qed.

Lemma samples_loop_quiet n i st :
  stdout (samples_loop run false fail_line bound n i st).2 =
  warnings (samples_loop run false fail_line bound n i st).2.
Proof.
  unfold warnings. symmetry. apply filter_all.
  revert i st. induction n as [|n IH]; intros i st; [constructor|].
  cbn [samples_loop]. unfold sample_body.
  pose proof (tries_loop_quiet (Z.to_nat bound) i 0 st false) as Hq.
  destruct (tries_loop _ _ _ _ _ _ _ _) as [[st1 f1] tr1].
  specialize (IH (i + 1) st1).
  destruct (samples_loop _ _ _ _ _ _ _) as [st2 tr2].
  cbn [snd] in Hq, IH |- *.
  rewrite !stdout_app, Hq. cbn [app].
  apply Forall_app. split; [|exact IH].
  destruct (has_size _); repeat constructor.
Qed.
End MoreLoops.

(** ** More on the calls of the front-ends *)

Lemma pixels_of_same_success {C : Type} (seed : Z) (r : Array2D C)
    (l : list Z) :
  has_size r = true ->
  pixels_of (map (fun j => mkTry j 0 seed r) l) =
  concat (replicate (length l) (arr_data r)).
Proof.
  intros Hr. induction l as [|j l IH]; [reflexivity|].
  cbn [map length replicate concat].
  rewrite pixels_of_success by exact Hr. now rewrite IH.
Qed.

Lemma filter_same_success {C : Type} (seed : Z) (r : Array2D C)
    (l : list Z) :
  has_size r = true ->
  length (filter (fun t => try_succeeded t = true)
            (map (fun j => mkTry j 0 seed r) l)) = length l.
Proof.
  intros Hr. induction l as [|j l IH]; [reflexivity|].
  cbn [map]. rewrite filter_cons_True by exact Hr. cbn. now rewrite IH.
Qed.

Section MoreCalls.
Context {E : WfcEngine}.
Variables (seed width height : Z) (periodic_output : bool) (N : Z).
Variables (periodic_input ground : bool) (nb_samples symmetry : Z).
Variables (input_img : list Color) (input_width input_height : Z).
Variables (verbose : bool) (nb_tries : Z).
Variables (pytiles : list (PyTile Color double)) (neighbors : list Neighbor).

Abbreviation started := (if verbose then [Cout "Started!"] else []).

Abbreviation overlapping_run :=
  (OverlappingWFC_run
     (array2d_from_vector input_img input_width input_height)
     (mkOverlappingWFCOptions periodic_input periodic_output height width
        symmetry ground N)).

Abbreviation tiling_run tiles_id tiles :=
  (TilingWFC_run tiles (neighbors_loop tiles_id neighbors []) height width
     (mkTilingWFCOptions periodic_output)).

Abbreviation overlapping_call :=
  (read_overlapping_instance seed width height periodic_output N
     periodic_input ground nb_samples symmetry input_img input_width
     input_height verbose nb_tries).

Abbreviation tiled_call :=
  (read_simpletiled_instance seed width height nb_samples periodic_output
     verbose nb_tries pytiles neighbors).

(** The engine runs of a call are the tries of its samples, or none when
    the call does not reach the sample loop. *)
Lemma overlapping_runs_cases :
  engine_runs overlapping_call.2 =
  samples_from overlapping_run nb_tries
    (if (input_width =? 0) && (input_height =? 0) then O
     else Z.to_nat nb_samples) 0 seed.
Proof.
  destruct ((input_width =? 0) && (input_height =? 0)) eqn:Hguard.
  - rewrite (overlapping_throws seed width height periodic_output N
               periodic_input ground nb_samples symmetry input_img
               input_width input_height verbose nb_tries Hguard).
    now destruct verbose.
  - now destruct (overlapping_returns seed width height periodic_output N
                    periodic_input ground nb_samples symmetry input_img
                    input_width input_height verbose nb_tries Hguard)
      as (_ & -> & _).
Qed.

Lemma tiled_runs_cases :
  exists run n,
    (n <= Z.to_nat nb_samples)%nat /\
    engine_runs tiled_call.2 = samples_from run 10 n 0 seed.
Proof.
  destruct (tiles_loop pytiles 0 ∅ []) as [[tiles_id tiles]|e|] eqn:Htiles.
  - destruct (tiled_returns seed width height periodic_output nb_samples
                verbose nb_tries pytiles neighbors _ _ Htiles)
      as (_ & H & _).
    eauto.
  - exists (fun _ => Array2D_0_0), O. split; [lia|].
    rewrite tiled_terminates by (intros built; congruence).
    now destruct verbose.
  - exists (fun _ => Array2D_0_0), O. split; [lia|].
    rewrite tiled_terminates by (intros built; congruence).
    now destruct verbose.
Qed.

(** X3. The tries of one sample run at pairwise different seeds, in both
    front-ends: no seed is tried twice for the same sample. *)
Theorem sample_seeds_distinct i :
  is_unsigned seed -> is_unsigned nb_tries ->
  NoDup (map try_seed (tries_of_sample i (engine_runs tiled_call.2))) /\
  NoDup (map try_seed (tries_of_sample i (engine_runs overlapping_call.2))).
Proof.
  intros Hseed Htries. split.
  - destruct tiled_runs_cases as (run & n & _ & ->).
    rewrite tries_of_sample_cases. destruct (decide _); [|constructor].
    apply tries_from_seeds_NoDup; [now apply entry_seed_range|].
    unfold UINT_MAX. cbn. lia.
  - rewrite overlapping_runs_cases, tries_of_sample_cases.
    destruct (decide _); [|constructor].
    apply tries_from_seeds_NoDup; [now apply entry_seed_range|].
    unfold is_unsigned in Htries. lia.
Qed.

(** From an [unsigned] seed, every seed an engine is constructed with is
    [unsigned], in both front-ends. *)
Lemma seeds_stay_unsigned :
  is_unsigned seed ->
  Forall (fun t => is_unsigned (try_seed t)) (engine_runs tiled_call.2) /\
  Forall (fun t => is_unsigned (try_seed t)) (engine_runs overlapping_call.2).
Proof.
  intros Hseed. split.
  - destruct tiled_runs_cases as (run & n & _ & ->).
    now apply samples_from_seeds_range.
  - rewrite overlapping_runs_cases. now apply samples_from_seeds_range.
Qed.

(** X4. In overlapping mode, a try that is followed by another try of the
    same sample failed, and the next try is the run of a new instance,
    built from the same image and options, at the incremented seed. *)
Theorem overlapping_retry_step i k t1 t2 :
  tries_of_sample i (engine_runs overlapping_call.2) !! k = Some t1 ->
  tries_of_sample i (engine_runs overlapping_call.2) !! S k = Some t2 ->
  try_succeeded t1 = false /\
  try_seed t2 = increment_seed (try_seed t1) /\
  try_result t2 = overlapping_run (try_seed t2).
Proof. rewrite overlapping_runs_cases. apply next_try_seed. Qed.

(** X5. In tiled mode, a try that is followed by another try of the same
    sample failed, and the next try runs at the incremented seed. *)
Theorem tiled_retry_step i k t1 t2 :
  tries_of_sample i (engine_runs tiled_call.2) !! k = Some t1 ->
  tries_of_sample i (engine_runs tiled_call.2) !! S k = Some t2 ->
  try_succeeded t1 = false /\
  try_seed t2 = increment_seed (try_seed t1).
Proof.
  destruct tiled_runs_cases as (run & n & _ & ->). intros H1 H2.
  destruct (next_try_seed run 10 n seed i k t1 t2 H1 H2) as (Hf & Hs & _).
  now split.
Qed.

(** X6. A call makes at most [nb_samples * 10] engine runs in tiled mode
    and at most [nb_samples * nb_tries] in overlapping mode. *)
Theorem total_runs_bounded :
  (length (engine_runs tiled_call.2) <= Z.to_nat nb_samples * 10)%nat /\
  (length (engine_runs overlapping_call.2)
   <= Z.to_nat nb_samples * Z.to_nat nb_tries)%nat.
Proof.
  split.
  - destruct tiled_runs_cases as (run & n & Hn & ->).
    pose proof (samples_from_length run 10 n 0 seed) as Hlen.
    change (Z.to_nat 10) with 10%nat in Hlen. nia.
  - rewrite overlapping_runs_cases.
    etransitivity; [apply samples_from_length|].
    destruct ((input_width =? 0) && (input_height =? 0)); lia.
Qed.

Lemma overlapping_loop_unfold :
  (input_width =? 0) && (input_height =? 0) = false ->
  overlapping_call =
  (Returned
     (l_results_vec
        (samples_loop overlapping_run verbose "Failed to generate!" nb_tries
           (Z.to_nat nb_samples) 0 (mkLocals seed Array2D_0_0 [])).1),
   started ++
   (samples_loop overlapping_run verbose "Failed to generate!" nb_tries
      (Z.to_nat nb_samples) 0 (mkLocals seed Array2D_0_0 [])).2).
Proof. intros Hguard. now rewrite read_overlapping_instance_unfold, Hguard. Qed.

Lemma tiled_loop_unfold tiles_id tiles :
  tiles_loop pytiles 0 ∅ [] = Returned (tiles_id, tiles) ->
  tiled_call =
  (Returned
     (l_results_vec
        (samples_loop (tiling_run tiles_id tiles) verbose "Failed!" 10
           (Z.to_nat nb_samples) 0 (mkLocals seed Array2D_0_0 [])).1),
   started ++
   (samples_loop (tiling_run tiles_id tiles) verbose "Failed!" 10
      (Z.to_nat nb_samples) 0 (mkLocals seed Array2D_0_0 [])).2).
Proof. intros Htiles. now rewrite read_simpletiled_instance_unfold, Htiles. Qed.

Lemma returned_overlapping :
  returned overlapping_call ->
  (input_width =? 0) && (input_height =? 0) = false.
Proof.
  destruct ((input_width =? 0) && (input_height =? 0)) eqn:Hguard;
    [|reflexivity].
  rewrite (overlapping_throws seed width height periodic_output N
             periodic_input ground nb_samples symmetry input_img
             input_width input_height verbose nb_tries Hguard).
  intros [].
Qed.

Lemma returned_tiled :
  returned tiled_call ->
  exists tiles_id tiles, tiles_loop pytiles 0 ∅ [] = Returned (tiles_id, tiles).
Proof.
  destruct (tiles_loop pytiles 0 ∅ []) as [[tiles_id tiles]|e|] eqn:Htiles;
    [eauto| |];
    rewrite tiled_terminates by (intros built; congruence); intros [].
Qed.

Lemma warnings_count_started run fail_line bound :
  fail_line <> warning_line ->
  (length
     (warnings
        (started ++
         (samples_loop run verbose fail_line bound (Z.to_nat nb_samples) 0
            (mkLocals seed Array2D_0_0 [])).2)) +
   length (filter (fun t => try_succeeded t = true)
             (samples_from run bound (Z.to_nat nb_samples) 0 seed)))%nat
  = Z.to_nat nb_samples.
Proof.
  intros Hline.
  replace (warnings (started ++ _)) with
    (warnings (samples_loop run verbose fail_line bound (Z.to_nat nb_samples)
                 0 (mkLocals seed Array2D_0_0 [])).2)
    by now destruct verbose.
  now apply (samples_loop_warnings_count run fail_line bound Hline verbose
               (Z.to_nat nb_samples) 0 (mkLocals seed Array2D_0_0 [])).
Qed.

Lemma tiled_warnings_count :
  returned tiled_call ->
  (length (warnings tiled_call.2) +
   length (filter (fun t => try_succeeded t = true)
             (engine_runs tiled_call.2)))%nat = Z.to_nat nb_samples.
Proof.
  intros Hret. destruct (returned_tiled Hret) as (tiles_id & tiles & Htiles).
  destruct (tiled_returns seed width height periodic_output nb_samples
              verbose nb_tries pytiles neighbors _ _ Htiles)
    as (_ & -> & _).
  rewrite (tiled_loop_unfold _ _ Htiles). cbn [snd].
  apply warnings_count_started. discriminate.
Qed.

Lemma overlapping_warnings_count :
  returned overlapping_call ->
  (length (warnings overlapping_call.2) +
   length (filter (fun t => try_succeeded t = true)
             (engine_runs overlapping_call.2)))%nat = Z.to_nat nb_samples.
Proof.
  intros Hret. pose proof (returned_overlapping Hret) as Hguard.
  rewrite overlapping_runs_cases, Hguard.
  rewrite (overlapping_loop_unfold Hguard). cbn [snd].
  apply warnings_count_started. discriminate.
Qed.

(** X7. In a call that returns, every sample leaves either one successful
    try or one warning: the warnings and the successful engine runs sum to
    [nb_samples], in both front-ends. *)
Theorem warning_or_success :
  (returned tiled_call ->
   (length (warnings tiled_call.2) +
    length (filter (fun t => try_succeeded t = true)
              (engine_runs tiled_call.2)))%nat = Z.to_nat nb_samples) /\
  (returned overlapping_call ->
   (length (warnings overlapping_call.2) +
    length (filter (fun t => try_succeeded t = true)
              (engine_runs overlapping_call.2)))%nat = Z.to_nat nb_samples).
Proof. split; [apply tiled_warnings_count|apply overlapping_warnings_count]. Qed.

(** X8. In overlapping mode, when the try at the seed given succeeds,
    every sample makes that one try again: the engine runs [nb_samples]
    times at the same seed, no warning is printed, and the vector returned
    is [nb_samples] copies of the same image. *)
Theorem overlapping_first_success_repeats :
  returned overlapping_call -> 0 < nb_tries ->
  has_size (overlapping_run seed) = true ->
  overlapping_call.1 =
    Returned
      (concat (replicate (Z.to_nat nb_samples)
                 (arr_data (overlapping_run seed)))) /\
  engine_runs overlapping_call.2 =
    map (fun i => mkTry i 0 seed (overlapping_run seed)) (samples nb_samples)
  /\
  warnings overlapping_call.2 = [].
Proof.
  intros Hret Htries Hsize. pose proof (returned_overlapping Hret) as Hguard.
  pose proof (overlapping_warnings_count Hret) as Hcount.
  destruct (overlapping_returns seed width height periodic_output N
              periodic_input ground nb_samples symmetry input_img
              input_width input_height verbose nb_tries Hguard)
    as (H1 & H2 & _).
  rewrite H2 in Hcount. rewrite H1, H2.
  rewrite samples_from_first_success in * by assumption.
  rewrite pixels_of_same_success by assumption.
  rewrite filter_same_success in Hcount by assumption.
  rewrite length_seqZ, Nat2Z.id in *.
  unfold samples, seqZ. rewrite Nat2Z.id.
  repeat split. apply length_zero_iff_nil. lia.
Qed.

(** X9. In tiled mode, when the try at the seed given succeeds, every
    sample makes that one try again: [nb_samples] engine runs at the same
    seed, no warning, and [nb_samples] copies of the same image. *)
Theorem tiled_first_success_repeats tiles_id tiles :
  tiles_loop pytiles 0 ∅ [] = Returned (tiles_id, tiles) ->
  has_size (tiling_run tiles_id tiles seed) = true ->
  tiled_call.1 =
    Returned
      (concat (replicate (Z.to_nat nb_samples)
                 (arr_data (tiling_run tiles_id tiles seed)))) /\
  engine_runs tiled_call.2 =
    map (fun i => mkTry i 0 seed (tiling_run tiles_id tiles seed))
      (samples nb_samples) /\
  warnings tiled_call.2 = [].
Proof.
  intros Htiles Hsize.
  assert (Hret : returned tiled_call).
  { rewrite (tiled_loop_unfold _ _ Htiles). exact I. }
  pose proof (tiled_warnings_count Hret) as Hcount.
  destruct (tiled_returns seed width height periodic_output nb_samples
              verbose nb_tries pytiles neighbors _ _ Htiles)
    as (H1 & H2 & _).
  rewrite H2 in Hcount. rewrite H1, H2.
  rewrite samples_from_first_success in * by (assumption || lia).
  rewrite pixels_of_same_success by assumption.
  rewrite filter_same_success in Hcount by assumption.
  rewrite length_seqZ, Nat2Z.id in *.
  unfold samples, seqZ. rewrite Nat2Z.id.
  repeat split. apply length_zero_iff_nil. lia.
Qed.

(** X10. When the engine fails at every seed, a call that returns returns
    the empty vector, prints one warning per sample and has used every try
    of every sample: [nb_samples * 10] engine runs in tiled mode,
    [nb_samples * nb_tries] in overlapping mode. *)
Theorem all_tries_fail :
  (forall tiles_id tiles,
     tiles_loop pytiles 0 ∅ [] = Returned (tiles_id, tiles) ->
     (forall s, has_size (tiling_run tiles_id tiles s) = false) ->
     tiled_call.1 = Returned [] /\
     length (warnings tiled_call.2) = Z.to_nat nb_samples /\
     length (engine_runs tiled_call.2) = (Z.to_nat nb_samples * 10)%nat) /\
  (returned overlapping_call ->
   (forall s, has_size (overlapping_run s) = false) ->
   overlapping_call.1 = Returned [] /\
   length (warnings overlapping_call.2) = Z.to_nat nb_samples /\
   length (engine_runs overlapping_call.2) =
     (Z.to_nat nb_samples * Z.to_nat nb_tries)%nat).
Proof.
  split.
  - intros tiles_id tiles Htiles Hfail.
    assert (Hret : returned tiled_call).
    { rewrite (tiled_loop_unfold _ _ Htiles). exact I. }
    pose proof (tiled_warnings_count Hret) as Hcount.
    destruct (tiled_returns seed width height periodic_output nb_samples
                verbose nb_tries pytiles neighbors _ _ Htiles)
      as (H1 & H2 & _).
    rewrite H2 in Hcount. rewrite H1, H2. unfold pixels_of.
    destruct (samples_from_all_fail (tiling_run tiles_id tiles) 10
                (Z.to_nat nb_samples) 0 seed Hfail) as [Hlen Hnone].
    rewrite Hnone in *. cbn in Hcount. repeat split; [lia|exact Hlen].
  - intros Hret Hfail. pose proof (returned_overlapping Hret) as Hguard.
    pose proof (overlapping_warnings_count Hret) as Hcount.
    destruct (overlapping_returns seed width height periodic_output N
                periodic_input ground nb_samples symmetry input_img
                input_width input_height verbose nb_tries Hguard)
      as (H1 & H2 & _).
    rewrite H2 in Hcount. rewrite H1, H2. unfold pixels_of.
    destruct (samples_from_all_fail overlapping_run nb_tries
                (Z.to_nat nb_samples) 0 seed Hfail) as [Hlen Hnone].
    rewrite Hnone in *. cbn in Hcount. repeat split; [lia|exact Hlen].
Qed.

(** X11. In overlapping mode with [nb_tries = 0], a call that returns
    runs no engine at all: it returns the empty vector and prints one
    warning per sample. *)
Theorem overlapping_no_tries :
  returned overlapping_call -> nb_tries <= 0 ->
  overlapping_call.1 = Returned [] /\
  engine_runs overlapping_call.2 = [] /\
  length (warnings overlapping_call.2) = Z.to_nat nb_samples.
Proof.
  intros Hret Htries. pose proof (returned_overlapping Hret) as Hguard.
  pose proof (overlapping_warnings_count Hret) as Hcount.
  pose proof (total_runs_helper := samples_from_length overlapping_run
                nb_tries (Z.to_nat nb_samples) 0 seed).
  destruct (overlapping_returns seed width height periodic_output N
              periodic_input ground nb_samples symmetry input_img
              input_width input_height verbose nb_tries Hguard)
    as (H1 & H2 & _).
  rewrite H2 in Hcount. rewrite H1, H2.
  replace (Z.to_nat nb_tries) with O in total_runs_helper by lia.
  assert (Hnil : samples_from overlapping_run nb_tries (Z.to_nat nb_samples)
                   0 seed = [])
    by (apply length_zero_iff_nil; lia).
  rewrite Hnil in *. cbn in Hcount. repeat split. lia.
Qed.


End MoreCalls.

(** ** Calls that differ in [verbose] or in [nb_samples] *)

Section VaryingCalls.
Context {E : WfcEngine}.
Variables (seed width height : Z) (periodic_output : bool) (N : Z).
Variables (periodic_input ground : bool) (symmetry : Z).
Variables (input_img : list Color) (input_width input_height : Z).
Variables (nb_tries : Z).
Variables (pytiles : list (PyTile Color double)) (neighbors : list Neighbor).

Abbreviation overlapping_call verbose nb_samples :=
  (read_overlapping_instance seed width height periodic_output N
     periodic_input ground nb_samples symmetry input_img input_width
     input_height verbose nb_tries).

Abbreviation tiled_call verbose nb_samples :=
  (read_simpletiled_instance seed width height nb_samples periodic_output
     verbose nb_tries pytiles neighbors).

Lemma warnings_eq_of_length {C : Type} (tr1 tr2 : list (Event C)) :
  length (warnings tr1) = length (warnings tr2) -> warnings tr1 = warnings tr2.
Proof.
  intros H. rewrite (warnings_replicate tr1), (warnings_replicate tr2).
  now rewrite H.
Qed.

(** X14. [verbose] only prints.  A call with [verbose] and the same call
    without end the same way, with the same vector returned, make the
    same engine runs and print the same warnings, in both front-ends. *)
Theorem verbose_only_prints nb_samples :
  ((overlapping_call true nb_samples).1 =
     (overlapping_call false nb_samples).1 /\
   engine_runs (overlapping_call true nb_samples).2 =
     engine_runs (overlapping_call false nb_samples).2 /\
   warnings (overlapping_call true nb_samples).2 =
     warnings (overlapping_call false nb_samples).2) /\
  ((tiled_call true nb_samples).1 = (tiled_call false nb_samples).1 /\
   engine_runs (tiled_call true nb_samples).2 =
     engine_runs (tiled_call false nb_samples).2 /\
   warnings (tiled_call true nb_samples).2 =
     warnings (tiled_call false nb_samples).2).
Proof.
  split.
  - destruct ((input_width =? 0) && (input_height =? 0)) eqn:Hguard.
    + rewrite !overlapping_throws by assumption. repeat split.
    + destruct (overlapping_returns seed width height periodic_output N
                  periodic_input ground nb_samples symmetry input_img
                  input_width input_height true nb_tries Hguard)
        as (H1 & H2 & H3).
      destruct (overlapping_returns seed width height periodic_output N
                  periodic_input ground nb_samples symmetry input_img
                  input_width input_height false nb_tries Hguard)
        as (H1' & H2' & H3').
      rewrite H1, H1', H2, H2'. repeat split.
      apply warnings_eq_of_length. now rewrite H3, H3'.
  - destruct (tiles_loop pytiles 0 ∅ []) as [[tiles_id tiles]|e|] eqn:Htiles.
    + destruct (tiled_returns seed width height periodic_output nb_samples
                  true nb_tries pytiles neighbors _ _ Htiles)
        as (H1 & H2 & H3).
      destruct (tiled_returns seed width height periodic_output nb_samples
                  false nb_tries pytiles neighbors _ _ Htiles)
        as (H1' & H2' & H3').
      rewrite H1, H1', H2, H2'. repeat split.
      apply warnings_eq_of_length. now rewrite H3, H3'.
    + rewrite !tiled_terminates by (intros built; congruence). repeat split.
    + rewrite !tiled_terminates by (intros built; congruence). repeat split.
Qed.

(** X15. Without [verbose], the only lines a front-end writes to
    [std::cout] are the warnings of the failed samples. *)
Theorem quiet_prints_only_warnings nb_samples :
  stdout (overlapping_call false nb_samples).2 =
    warnings (overlapping_call false nb_samples).2 /\
  stdout (tiled_call false nb_samples).2 =
    warnings (tiled_call false nb_samples).2.
Proof.
  split.
  - rewrite read_overlapping_instance_unfold.
    destruct ((input_width =? 0) && (input_height =? 0)); [reflexivity|].
    cbn [snd app]. apply samples_loop_quiet.
  - rewrite read_simpletiled_instance_unfold.
    destruct (tiles_loop pytiles 0 ∅ []) as [[tiles_id tiles]|e|];
      [|reflexivity|reflexivity].
    cbn [snd app]. apply samples_loop_quiet.
Qed.

(** X16. Asking for more samples only appends: a call for [n + k] samples
    makes the engine runs of the call for [n] samples first, and returns
    the vector of that call followed by the data of the further samples,
    in both front-ends. *)
Theorem more_samples_extend verbose n k :
  0 <= n -> 0 <= k ->
  (forall v, (overlapping_call verbose n).1 = Returned v ->
     (exists v', (overlapping_call verbose (n + k)).1 = Returned (v ++ v')) /\
     engine_runs (overlapping_call verbose n).2 `prefix_of`
       engine_runs (overlapping_call verbose (n + k)).2) /\
  (forall v, (tiled_call verbose n).1 = Returned v ->
     (exists v', (tiled_call verbose (n + k)).1 = Returned (v ++ v')) /\
     engine_runs (tiled_call verbose n).2 `prefix_of`
       engine_runs (tiled_call verbose (n + k)).2).
Proof.
  intros Hn Hk.
  assert (Hadd : Z.to_nat (n + k) = (Z.to_nat n + Z.to_nat k)%nat) by lia.
  split.
  - intros v Hv.
    destruct ((input_width =? 0) && (input_height =? 0)) eqn:Hguard.
    + rewrite overlapping_throws in Hv by assumption. discriminate.
    + destruct (overlapping_returns seed width height periodic_output N
                  periodic_input ground n symmetry input_img
                  input_width input_height verbose nb_tries Hguard)
        as (H1 & H2 & _).
      destruct (overlapping_returns seed width height periodic_output N
                  periodic_input ground (n + k) symmetry input_img
                  input_width input_height verbose nb_tries Hguard)
        as (H1' & H2' & _).
      rewrite H1 in Hv. injection Hv as <-.
      rewrite H1', H2, H2', Hadd, samples_from_add, pixels_of_app.
      split; [eauto|]. now apply prefix_app_r.
  - intros v Hv.
    destruct (tiles_loop pytiles 0 ∅ []) as [[tiles_id tiles]|e|] eqn:Htiles.
    + destruct (tiled_returns seed width height periodic_output n
                  verbose nb_tries pytiles neighbors _ _ Htiles)
        as (H1 & H2 & _).
      destruct (tiled_returns seed width height periodic_output (n + k)
                  verbose nb_tries pytiles neighbors _ _ Htiles)
        as (H1' & H2' & _).
      rewrite H1 in Hv. injection Hv as <-.
      rewrite H1', H2, H2', Hadd, samples_from_add, pixels_of_app.
      split; [eauto|]. now apply prefix_app_r.
    + rewrite tiled_terminates in Hv by (intros built; congruence).
      discriminate.
    + rewrite tiled_terminates in Hv by (intros built; congruence).
      discriminate.
Qed.
End VaryingCalls.

(** ** More on the tiles and the neighbor rules *)

(** X17. [to_symmetry] and the six names: a symmetry read back from its
    name is itself, a name that is read is the name of what it is read
    as, and every other name throws the message built from it. *)
Theorem to_symmetry_round_trip :
  (forall s, to_symmetry (symmetry_name s) = Returned s) /\
  (forall name s, to_symmetry name = Returned s -> name = symmetry_name s) /\
  (forall name e,
     to_symmetry name = Thrown e ->
     (name ∉ symmetry_names) /\
     e = StdString (name +:+ "is an invalid Symmetry")) /\
  (forall name, to_symmetry name <> Terminated).
Proof.
  split; [intros []; reflexivity|].
  assert (Hcases : forall name,
            (exists s, name = symmetry_name s /\
                       to_symmetry name = Returned s) \/
            ((name ∉ symmetry_names) /\
             to_symmetry name =
               Thrown (StdString (name +:+ "is an invalid Symmetry")))).
  { intros name.
    destruct (decide (name ∈ symmetry_names)) as [Hin|Hout].
    - left. unfold symmetry_names in Hin.
      apply elem_of_cons in Hin as [->|Hin];
        [exists Symmetry.X; split; reflexivity|].
      apply elem_of_cons in Hin as [->|Hin];
        [exists Symmetry.T; split; reflexivity|].
      apply elem_of_cons in Hin as [->|Hin];
        [exists Symmetry.I; split; reflexivity|].
      apply elem_of_cons in Hin as [->|Hin];
        [exists Symmetry.L; split; reflexivity|].
      apply elem_of_cons in Hin as [->|Hin];
        [exists Symmetry.backslash; split; reflexivity|].
      apply elem_of_cons in Hin as [->|Hin];
        [exists Symmetry.P; split; reflexivity|].
      now apply elem_of_nil in Hin.
    - right. split; [assumption|]. now apply to_symmetry_invalid. }
  repeat split.
  - intros name s Hs.
    destruct (Hcases name) as [(s' & -> & Hs')|(_ & Hthrow)]; congruence.
  - destruct (Hcases name) as [(s' & -> & Hs')|(Hout & _)];
      [congruence|assumption].
  - destruct (Hcases name) as [(s' & -> & Hs')|(_ & Hthrow)]; congruence.
  - intros name.
    destruct (Hcases name) as [(s' & -> & Hs')|(_ & Hthrow)]; congruence.
Qed.

Section MoreTiles.
Context {E : WfcEngine}.
Implicit Types (pytiles : list (PyTile Color double)).
Implicit Types (tiles : list (Tile Color double)).
Implicit Types (tiles_id : gmap string Z).

(** A tile and the [PyTile] it was made from. *)
Abbreviation tile_of_pytile pytile tile :=
  (tile_data tile =
     mkArray2D (py_size pytile) (py_size pytile) (py_tile pytile) /\
   symmetry_name (tile_symmetry tile) = py_symmetry pytile /\
   tile_weight tile = py_weight pytile).

Lemma pytile_to_tile_returned (pytile : PyTile Color double) tile :
  pytile_to_tile pytile = Returned tile -> tile_of_pytile pytile tile.
Proof.
  unfold pytile_to_tile.
  destruct (to_symmetry (py_symmetry pytile)) as [s|e|] eqn:Hs;
    try discriminate.
  intros [= <-]. cbn. repeat split.
  destruct (decide (py_symmetry pytile ∈ symmetry_names)) as [Hin|Hout].
  - unfold symmetry_names in Hin.
    repeat (apply elem_of_cons in Hin as [Heq|Hin];
            [rewrite Heq in Hs |- *; injection Hs as <-; reflexivity|]).
    now apply elem_of_nil in Hin.
  - rewrite to_symmetry_invalid in Hs by assumption. discriminate.
Qed.

Lemma tiles_loop_tiles pytiles id tiles_id tiles built :
  tiles_loop pytiles id tiles_id tiles = Returned built ->
  exists new,
    built.2 = tiles ++ new /\
    Forall2 (fun pytile tile => tile_of_pytile pytile tile) pytiles new.
Proof.
  revert id tiles_id tiles.
  induction pytiles as [|pytile rest IH]; intros id tiles_id tiles.
  - cbn. intros [= <-]. exists []. cbn. rewrite app_nil_r.
    split; [reflexivity|constructor].
  - cbn [tiles_loop].
    destruct (pytile_to_tile pytile) as [tile|e|] eqn:Htile; try discriminate.
    intros Hloop. apply IH in Hloop as (new & -> & Hall).
    exists (tile :: new). rewrite <- app_assoc. split; [reflexivity|].
    constructor; [now apply pytile_to_tile_returned|assumption].
Qed.

(** X18. When the loop over the tiles returns, the tile vector has one
    tile per [PyTile], in order: the square image of side [size] holding
    the pixels given (whatever their number), the symmetry the name
    stands for, and the weight. *)
Theorem tiles_loop_converts_all pytiles tiles_id tiles :
  tiles_loop pytiles 0 ∅ [] = Returned (tiles_id, tiles) ->
  Forall2 (fun pytile tile => tile_of_pytile pytile tile) pytiles tiles /\
  length tiles = length pytiles.
Proof.
  intros Hloop. apply tiles_loop_tiles in Hloop as (new & Heq & Hall).
  cbn in Heq. subst tiles.
  split; [assumption|]. symmetry. eapply Forall2_length, Hall.
Qed.

(** X19. The loop over the tiles stops at the first tile whose symmetry
    name is not one of the six, and throws the message built from that
    name; tiles after it are not looked at. *)
Theorem tiles_loop_first_invalid good bad rest id tiles_id tiles :
  Forall (fun pytile => py_symmetry pytile ∈ symmetry_names) good ->
  py_symmetry bad ∉ symmetry_names ->
  tiles_loop (good ++ bad :: rest) id tiles_id tiles =
  Thrown (StdString (py_symmetry bad +:+ "is an invalid Symmetry")).
Proof.
  intros Hgood Hbad. revert id tiles_id tiles.
  induction Hgood as [|pytile good Hin Hgood IH]; intros id tiles_id tiles.
  - cbn [app tiles_loop]. unfold pytile_to_tile.
    now rewrite to_symmetry_invalid by assumption.
  - cbn [app tiles_loop]. unfold pytile_to_tile.
    destruct (to_symmetry_valid _ Hin) as [s ->]. apply IH.
Qed.

Lemma tile_id_from_Some id0 pytiles name id :
  tile_id_from id0 pytiles name = Some id <->
  exists k pytile,
    id = id0 + Z.of_nat k /\
    pytiles !! k = Some pytile /\ py_name pytile = name /\
    forall j other,
      (j < k)%nat -> pytiles !! j = Some other -> py_name other <> name.
Proof.
  revert id0. induction pytiles as [|pytile rest IH]; intros id0.
  - cbn. split; [discriminate|]. intros (k & p & _ & H & _). discriminate.
  - cbn [tile_id_from].
    destruct (decide (py_name pytile = name)) as [Hname|Hname].
    + split.
      * intros [= <-]. exists O, pytile. repeat split; [lia|assumption|].
        intros j other Hj. lia.
      * intros (k & p & -> & Hk & Hp & Hfirst).
        destruct k as [|k]; [f_equal; lia|].
        exfalso. apply (Hfirst O pytile); [lia|reflexivity|assumption].
    + rewrite IH. split.
      * intros (k & p & -> & Hk & Hp & Hfirst).
        exists (S k), p. repeat split; [lia|assumption|assumption|].
        intros [|j] other Hj; cbn.
        -- intros [= <-]. assumption.
        -- apply Hfirst. lia.
      * intros (k & p & -> & Hk & Hp & Hfirst).
        destruct k as [|k]; [cbn in Hk; congruence|].
        exists k, p. repeat split; [lia|assumption|assumption|].
        intros j other Hj Hother. apply (Hfirst (S j) other); [lia|assumption].
Qed.

(** X20. After the loop over the tiles, the id of a name is the position
    of the first tile that has this name: a later tile of the same name
    keeps its place in the tile vector but gets no id, and a name that no
    tile has is not in the map. *)
Theorem tile_ids_first_wins pytiles tiles_id tiles name id :
  Z.of_nat (length pytiles) <= 2 ^ 32 ->
  tiles_loop pytiles 0 ∅ [] = Returned (tiles_id, tiles) ->
  tiles_id !! name = Some id <->
  exists k pytile,
    id = Z.of_nat k /\
    pytiles !! k = Some pytile /\ py_name pytile = name /\
    forall j other,
      (j < k)%nat -> pytiles !! j = Some other -> py_name other <> name.
Proof.
  intros Hlen Hloop.
  pose proof (tiles_loop_lookup pytiles 0 ∅ [] (tiles_id, tiles) name)
    as Hlookup.
  cbn [fst] in Hlookup. rewrite Hlookup by (assumption || lia).
  rewrite lookup_empty, tile_id_from_Some.
  split; intros (k & p & Hid & H); exists k, p; (split; [lia|exact H]).
Qed.

Lemma neighbors_loop_Forall (Q : Z -> Prop) tiles_id neighbors neighbors_ids :
  (forall name id, tiles_id !! name = Some id -> Q id) ->
  Forall (fun r => Q r.1.1.1 /\ Q r.1.2 /\
                   0 <= r.1.1.2 < 2 ^ 32 /\ 0 <= r.2 < 2 ^ 32)
    neighbors_ids ->
  Forall (fun r => Q r.1.1.1 /\ Q r.1.2 /\
                   0 <= r.1.1.2 < 2 ^ 32 /\ 0 <= r.2 < 2 ^ 32)
    (neighbors_loop tiles_id neighbors neighbors_ids) /\
  (length (neighbors_loop tiles_id neighbors neighbors_ids)
   <= length neighbors_ids + length neighbors)%nat.
Proof.
  intros Hids. revert neighbors_ids.
  induction neighbors as [|neighbor rest IH]; intros neighbors_ids Hacc.
  - cbn. split; [assumption|lia].
  - cbn [neighbors_loop length].
    destruct (tiles_id !! nb_left neighbor) as [id1|] eqn:H1.
    + destruct (tiles_id !! nb_right neighbor) as [id2|] eqn:H2.
      * destruct (IH (neighbors_ids ++
                      [(id1, to_unsigned (nb_left_or neighbor), id2,
                        to_unsigned (nb_right_or neighbor))]))
          as [IH1 IH2].
        { apply Forall_app. split; [assumption|].
          constructor; [|constructor]. cbn.
          unfold to_unsigned.
          pose proof (Z.mod_pos_bound (nb_left_or neighbor) (2 ^ 32)).
          pose proof (Z.mod_pos_bound (nb_right_or neighbor) (2 ^ 32)).
          repeat split; eauto; lia. }
        split; [assumption|]. rewrite length_app in IH2. cbn in IH2. lia.
      * destruct (IH neighbors_ids Hacc). split; [assumption|lia].
    + destruct (IH neighbors_ids Hacc). split; [assumption|lia].
Qed.

(** X21. The rules handed to the tiled engine only name tiles that exist:
    both ids of every rule are indices into the tile vector, both
    orientations are [unsigned], and there are at most as many rules as
    neighbor entries. *)
Theorem rules_index_tiles pytiles (neighbors : list Neighbor) tiles_id tiles :
  Z.of_nat (length pytiles) <= 2 ^ 32 ->
  tiles_loop pytiles 0 ∅ [] = Returned (tiles_id, tiles) ->
  Forall (fun r =>
            0 <= r.1.1.1 < Z.of_nat (length tiles) /\
            0 <= r.1.2 < Z.of_nat (length tiles) /\
            0 <= r.1.1.2 < 2 ^ 32 /\ 0 <= r.2 < 2 ^ 32)
    (neighbors_loop tiles_id neighbors []) /\
  (length (neighbors_loop tiles_id neighbors []) <= length neighbors)%nat.
Proof.
  intros Hlen Hloop.
  pose proof (tiles_loop_tiles _ _ _ _ _ Hloop) as (new & Heq & Hall).
  cbn in Heq. subst tiles. apply Forall2_length in Hall.
  apply (neighbors_loop_Forall
           (fun id => 0 <= id < Z.of_nat (length new))); [|constructor].
  intros name id Hid.
  pose proof (tiles_loop_lookup pytiles 0 ∅ [] (tiles_id, new) name)
    as Hlookup.
  cbn [fst] in Hlookup. rewrite Hlookup in Hid by (assumption || lia).
  rewrite lookup_empty in Hid.
  apply tile_id_from_Some in Hid as (k & p & -> & Hk & _).
  apply lookup_lt_Some in Hk. lia.
Qed.
End MoreTiles.

(** ** The timing line *)

(** X22. When the clock does not go back and less than 2^31 milliseconds
    pass during the call, the timing line shows the whole seconds elapsed
    and the milliseconds beyond them, a number below 1000: together they
    are the whole milliseconds elapsed. *)
Theorem timing_line_short (clock : nat -> Z) :
  0 <= clock 1%nat - clock 0%nat < 2 ^ 31 * 10 ^ 6 ->
  timing_line clock =
    "All samples done in " +:+
    pretty ((clock 1%nat - clock 0%nat) / 10 ^ 9) +:+ "s, " +:+
    pretty (((clock 1%nat - clock 0%nat) / 10 ^ 6) mod 1000) +:+ "ms." /\
  0 <= ((clock 1%nat - clock 0%nat) / 10 ^ 6) mod 1000 < 1000 /\
  (clock 1%nat - clock 0%nat) / 10 ^ 9 * 1000 +
  ((clock 1%nat - clock 0%nat) / 10 ^ 6) mod 1000 =
  (clock 1%nat - clock 0%nat) / 10 ^ 6.
Proof.
  set (d := clock 1%nat - clock 0%nat). intros Hd.
  assert (Hms : 0 <= d / 10 ^ 6 < 2 ^ 31).
  { split; [apply Z.div_pos; lia|apply Z.div_lt_upper_bound; lia]. }
  assert (Hs : d / 10 ^ 9 = d / 10 ^ 6 / 1000).
  { rewrite Z.div_div by lia. reflexivity. }
  assert (Hsec : 0 <= d / 10 ^ 9 < 2 ^ 31).
  { rewrite Hs. split; [apply Z.div_pos; lia|].
    apply Z.div_lt_upper_bound; lia. }
  assert (Hint : forall z, 0 <= z < 2 ^ 31 -> to_int z = z).
  { intros z Hz. unfold to_int. rewrite Z.mod_small; lia. }
  split; [|split].
  - unfold timing_line. fold d.
    rewrite !Z.quot_div_nonneg by lia.
    rewrite !Hint by assumption.
    rewrite Z.rem_mod_nonneg by lia. reflexivity.
  - apply Z.mod_pos_bound. lia.
  - rewrite Hs. pose proof (Z.div_mod (d / 10 ^ 6) 1000). lia.
Qed.

(** ** The further properties with hypotheses, at concrete calls *)

Module MoreWitnesses.
Import Examples MoreExamples.

Abbreviation example_tiles_id :=
  (<["B" := 1]> (<["A" := 0]> (∅ : gmap string Z))).

Abbreviation example_tiles :=
  [mkTile (mkArray2D 1 1 [10]) Symmetry.X 1;
   mkTile (mkArray2D 1 1 [20]) Symmetry.L 1].

Lemma increment_seed_moves_witness :
  is_unsigned 4294967295 /\
  is_unsigned (increment_seed 4294967295) /\
  increment_seed 4294967295 <> 4294967295 /\
  increment_seed 4294967295 <> UINT_MAX.
Proof.
  assert (H : is_unsigned 4294967295) by (unfold is_unsigned, UINT_MAX; lia).
  split; [exact H|]. apply (increment_seed_moves 4294967295 H).
Defined.

Lemma increment_seed_period_witness :
  Nat.iter 3 increment_seed 5 = 5 <-> 3%nat = O \/ Z.of_nat 3 = UINT_MAX.
Proof.
  apply (increment_seed_period 5 3); unfold UINT_MAX; simpl; lia.
Defined.

Lemma sample_seeds_distinct_witness :
  NoDup (map try_seed
           (tries_of_sample 0
              (engine_runs
                 (read_simpletiled_instance (E := mod3_engine) 1 4 4 3 false
                    true 5 [tile_A; tile_B] rules).2))) /\
  NoDup (map try_seed
           (tries_of_sample 0
              (engine_runs
                 (read_overlapping_instance (E := mod3_engine) 1 4 4 false 2
                    false false 3 1 [5] 1 1 true 5).2))).
Proof.
  apply (sample_seeds_distinct (E := mod3_engine) 1 4 4 false 2 false false
           3 1 [5] 1 1 true 5 [tile_A; tile_B] rules 0);
    unfold is_unsigned, UINT_MAX; lia.
Defined.

Lemma overlapping_retry_step_witness :
  try_succeeded (mkTry 0 0 1 (@Array2D_0_0 Z)) = false /\
  try_seed (mkTry 0 1 2 (@Array2D_0_0 Z)) =
    increment_seed (try_seed (mkTry 0 0 1 (@Array2D_0_0 Z))) /\
  try_result (mkTry 0 1 2 (@Array2D_0_0 Z)) =
    OverlappingWFC_run (WfcEngine := mod3_engine)
      (array2d_from_vector [5] 1 1)
      (mkOverlappingWFCOptions false false 4 4 1 false 2)
      (try_seed (mkTry 0 1 2 (@Array2D_0_0 Z))).
Proof.
  apply (overlapping_retry_step (E := mod3_engine) 1 4 4 false 2 false false
           3 1 [5] 1 1 true 5 0 0); reflexivity.
Defined.

Lemma tiled_retry_step_witness :
  try_succeeded (mkTry 0 0 1 (@Array2D_0_0 Z)) = false /\
  try_seed (mkTry 0 1 2 (@Array2D_0_0 Z)) =
    increment_seed (try_seed (mkTry 0 0 1 (@Array2D_0_0 Z))).
Proof.
  apply (tiled_retry_step (E := mod3_engine) 1 4 4 false 3 true 5
           [tile_A; tile_B] rules 0 0); reflexivity.
Defined.

Lemma warning_or_success_witness :
  (length (warnings
             (read_simpletiled_instance (E := mod3_engine) 1 4 4 3 false
                true 2 [tile_A; tile_B] rules).2) +
   length (filter (fun t => try_succeeded t = true)
             (engine_runs
                (read_simpletiled_instance (E := mod3_engine) 1 4 4 3 false
                   true 2 [tile_A; tile_B] rules).2)))%nat = Z.to_nat 3 /\
  (length (warnings
             (read_overlapping_instance (E := mod3_engine) 1 4 4 false 2
                false false 3 1 [5%Z] 1 1 true 2).2) +
   length (filter (fun t => try_succeeded t = true)
             (engine_runs
                (read_overlapping_instance (E := mod3_engine) 1 4 4 false 2
                   false false 3 1 [5%Z] 1 1 true 2).2)))%nat = Z.to_nat 3.
Proof.
  pose proof (warning_or_success (E := mod3_engine) 1 4 4 false 2 false false
                3 1 [5%Z] 1 1 true 2 [tile_A; tile_B] rules)
    as [Htiled Hover].
  split; [apply Htiled|apply Hover]; exact I.
Defined.

Lemma overlapping_first_success_repeats_witness :
  (read_overlapping_instance (E := mod3_engine) 3 4 4 false 2 false false
     4 1 [5] 1 1 true 2).1 =
    Returned (concat (replicate (Z.to_nat 4) [3])) /\
  engine_runs
    (read_overlapping_instance (E := mod3_engine) 3 4 4 false 2 false false
       4 1 [5] 1 1 true 2).2 =
    map (fun i => mkTry i 0 3 (mkArray2D 1 1 [3])) (samples 4) /\
  warnings
    (read_overlapping_instance (E := mod3_engine) 3 4 4 false 2 false false
       4 1 [5] 1 1 true 2).2 = [].
Proof.
  apply (overlapping_first_success_repeats (E := mod3_engine) 3 4 4 false 2
           false false 4 1 [5] 1 1 true 2); [exact I|lia|reflexivity].
Defined.

Lemma tiled_first_success_repeats_witness :
  (read_simpletiled_instance (E := mod3_engine) 3 4 4 4 false true 2
     [tile_A; tile_B] rules).1 =
    Returned (concat (replicate (Z.to_nat 4) [3; 2])) /\
  engine_runs
    (read_simpletiled_instance (E := mod3_engine) 3 4 4 4 false true 2
       [tile_A; tile_B] rules).2 =
    map (fun i => mkTry i 0 3 (mkArray2D 1 2 [3; 2])) (samples 4) /\
  warnings
    (read_simpletiled_instance (E := mod3_engine) 3 4 4 4 false true 2
       [tile_A; tile_B] rules).2 = [].
Proof.
  pose proof (tiled_first_success_repeats (E := mod3_engine) 3 4 4 false 4
                true 2 [tile_A; tile_B] rules example_tiles_id example_tiles
                eq_refl eq_refl) as H.
  vm_compute in H. vm_compute. exact H.
Defined.

Lemma all_tries_fail_witness :
  ((read_simpletiled_instance (E := failing_engine) 7 4 4 3 false false 2
      [tile_A; tile_B] rules).1 = Returned [] /\
   length (warnings
             (read_simpletiled_instance (E := failing_engine) 7 4 4 3 false
                false 2 [tile_A; tile_B] rules).2) = Z.to_nat 3 /\
   length (engine_runs
             (read_simpletiled_instance (E := failing_engine) 7 4 4 3 false
                false 2 [tile_A; tile_B] rules).2) = (Z.to_nat 3 * 10)%nat) /\
  ((read_overlapping_instance (E := failing_engine) 7 4 4 false 2 false
      false 3 1 [5%Z] 1 1 false 2).1 = Returned [] /\
   length (warnings
             (read_overlapping_instance (E := failing_engine) 7 4 4 false 2
                false false 3 1 [5%Z] 1 1 false 2).2) = Z.to_nat 3 /\
   length (engine_runs
             (read_overlapping_instance (E := failing_engine) 7 4 4 false 2
                false false 3 1 [5%Z] 1 1 false 2).2)
   = (Z.to_nat 3 * Z.to_nat 2)%nat).
Proof.
  pose proof (all_tries_fail (E := failing_engine) 7 4 4 false 2 false false
                3 1 [5%Z] 1 1 false 2 [tile_A; tile_B] rules)
    as [Htiled Hover].
  split.
  - apply (Htiled example_tiles_id example_tiles); reflexivity.
  - apply Hover; [exact I|reflexivity].
Defined.

Lemma overlapping_no_tries_witness :
  (read_overlapping_instance (E := mod3_engine) 3 4 4 false 2 false false
     2 1 [5] 1 1 true 0).1 = Returned [] /\
  engine_runs
    (read_overlapping_instance (E := mod3_engine) 3 4 4 false 2 false false
       2 1 [5] 1 1 true 0).2 = [] /\
  length (warnings
            (read_overlapping_instance (E := mod3_engine) 3 4 4 false 2
               false false 2 1 [5] 1 1 true 0).2) = Z.to_nat 2.
Proof.
  apply (overlapping_no_tries (E := mod3_engine) 3 4 4 false 2 false false
           2 1 [5] 1 1 true 0); [exact I|lia].
Defined.


Lemma more_samples_extend_witness :
  (exists v',
     (read_overlapping_instance (E := mod3_engine) 1 4 4 false 2 false false
        (1 + 2) 1 [5] 1 1 false 2).1 = Returned ([] ++ v')) /\
  engine_runs
    (read_overlapping_instance (E := mod3_engine) 1 4 4 false 2 false false
       1 1 [5] 1 1 false 2).2 `prefix_of`
  engine_runs
    (read_overlapping_instance (E := mod3_engine) 1 4 4 false 2 false false
       (1 + 2) 1 [5] 1 1 false 2).2.
Proof.
  pose proof (more_samples_extend (E := mod3_engine) 1 4 4 false 2 false
                false 1 [5] 1 1 2 [tile_A; tile_B] rules false 1 2
                ltac:(lia) ltac:(lia)) as [Hover _].
  apply Hover. reflexivity.
Defined.

Lemma tiles_loop_converts_all_witness :
  Forall2
    (fun pytile tile =>
       tile_data tile =
         mkArray2D (py_size pytile) (py_size pytile) (py_tile pytile) /\
       symmetry_name (tile_symmetry tile) = py_symmetry pytile /\
       tile_weight tile = py_weight pytile)
    [tile_A; tile_B] example_tiles /\
  length example_tiles = length [tile_A; tile_B].
Proof.
  apply (tiles_loop_converts_all (E := mod3_engine) [tile_A; tile_B]
           example_tiles_id example_tiles).
  reflexivity.
Defined.

Lemma tiles_loop_first_invalid_witness :
  tiles_loop (E := mod3_engine) ([tile_A] ++ tile_bad :: [tile_B]) 0 ∅ [] =
  Thrown (StdString ("Z" +:+ "is an invalid Symmetry")).
Proof.
  apply (tiles_loop_first_invalid (E := mod3_engine) [tile_A] tile_bad
           [tile_B] 0 ∅ []).
  - apply (bool_decide_unpack _). vm_compute. exact I.
  - apply (bool_decide_unpack _). vm_compute. exact I.
Defined.

Lemma tile_ids_first_wins_witness :
  (<["B" := 1]> (<["A" := 0]> (∅ : gmap string Z))) !! "A" = Some 0 <->
  exists k pytile,
    0 = Z.of_nat k /\
    tiles_twice !! k = Some pytile /\ py_name pytile = "A" /\
    forall j other,
      (j < k)%nat -> tiles_twice !! j = Some other -> py_name other <> "A".
Proof.
  apply (tile_ids_first_wins (E := mod3_engine) tiles_twice example_tiles_id
           [mkTile (mkArray2D 1 1 [10]) Symmetry.X 1;
            mkTile (mkArray2D 1 1 [20]) Symmetry.L 1;
            mkTile (mkArray2D 2 2 [40; 41]) Symmetry.T 1]
           "A" 0).
  - simpl. lia.
  - reflexivity.
Defined.

Lemma rules_index_tiles_witness :
  Forall (fun r =>
            0 <= r.1.1.1 < Z.of_nat (length example_tiles) /\
            0 <= r.1.2 < Z.of_nat (length example_tiles) /\
            0 <= r.1.1.2 < 2 ^ 32 /\ 0 <= r.2 < 2 ^ 32)
    (neighbors_loop example_tiles_id rules []) /\
  (length (neighbors_loop example_tiles_id rules []) <= length rules)%nat.
Proof.
  apply (rules_index_tiles (E := mod3_engine) [tile_A; tile_B] rules
           example_tiles_id example_tiles).
  - simpl. lia.
  - reflexivity.
Defined.

Lemma timing_line_short_witness :
  timing_line clock_a =
    "All samples done in " +:+
    pretty ((clock_a 1%nat - clock_a 0%nat) / 10 ^ 9) +:+ "s, " +:+
    pretty (((clock_a 1%nat - clock_a 0%nat) / 10 ^ 6) mod 1000) +:+ "ms." /\
  0 <= ((clock_a 1%nat - clock_a 0%nat) / 10 ^ 6) mod 1000 < 1000 /\
  (clock_a 1%nat - clock_a 0%nat) / 10 ^ 9 * 1000 +
  ((clock_a 1%nat - clock_a 0%nat) / 10 ^ 6) mod 1000 =
  (clock_a 1%nat - clock_a 0%nat) / 10 ^ 6.
Proof.
  apply (timing_line_short clock_a). unfold clock_a. simpl. lia.
Defined.

End MoreWitnesses.
